(** * A shallow embedding of the retrieval, chunking and scoring core of
    contract-analyzer ([src/chunking], [src/rag], [src/vector_store],
    [src/compliance_engine]).

    Python strings are modelled as lists of ASCII characters ([str]); Python
    [len] is [length].  The regular expressions of the source are modelled by
    a small backtracking matcher with Python's leftmost, greedy semantics;
    [\s], [\d] and [\w] are their ASCII parts. *)

From Stdlib Require Import ZArith QArith Qround List String Ascii Bool Lia Sorted Permutation.
Import ListNotations.

Open Scope bool_scope.
Set Warnings "-register-all".

(** ** Characters and Python string helpers *)
Module Py.

Definition str := list ascii.

Definition s (x : string) : str := list_ascii_of_string x.

Definition code (a : ascii) : nat := nat_of_ascii a.

Definition is_digit (a : ascii) : bool := (48 <=? code a)%nat && (code a <=? 57)%nat.
Definition is_upper (a : ascii) : bool := (65 <=? code a)%nat && (code a <=? 90)%nat.
Definition is_lower (a : ascii) : bool := (97 <=? code a)%nat && (code a <=? 122)%nat.
Definition is_alpha (a : ascii) : bool := is_upper a || is_lower a.
(** [str.isspace] on ASCII: \t \n \v \f \r, the separators \x1c-\x1f and space. *)
Definition is_space (a : ascii) : bool :=
  let n := code a in
  ((9 <=? n)%nat && (n <=? 13)%nat) || ((28 <=? n)%nat && (n <=? 32)%nat).
(** [\w]: letters, digits and underscore. *)
Definition is_word (a : ascii) : bool := is_alpha a || is_digit a || Ascii.eqb a "_"%char.

Definition to_upper (a : ascii) : ascii :=
  if is_lower a then ascii_of_nat (code a - 32) else a.
Definition to_lower (a : ascii) : ascii :=
  if is_upper a then ascii_of_nat (code a + 32) else a.

Definition upper (x : str) : str := map to_upper x.

Definition nl : ascii := ascii_of_nat 10.
Definition cr : ascii := ascii_of_nat 13.

(** [str.strip()] *)
Fixpoint lstrip (x : str) : str :=
  match x with
  | a :: r => if is_space a then lstrip r else x
  | [] => []
  end.
Definition strip (x : str) : str := rev (lstrip (rev (lstrip x))).

(** [x.replace("\r", "\n")] *)
Definition replace_cr (x : str) : str :=
  map (fun a => if Ascii.eqb a cr then nl else a) x.

(** [x[i:j]] for non-negative [i <= j]. *)
Definition slice (x : str) (i j : nat) : str := firstn (j - i) (skipn i x).

(** [sep.join(xs)] *)
Fixpoint join (sep : str) (xs : list str) : str :=
  match xs with
  | [] => []
  | [x] => x
  | x :: r => x ++ sep ++ join sep r
  end.

(** [str.lower()] *)
Definition lower (x : str) : str := map to_lower x.

End Py.

(** ** A backtracking regular-expression matcher (Python [re] semantics) *)
Module Re.
Import Py.

Inductive regex :=
| Cls (f : ascii -> bool)          (* one character of a class *)
| Seq (r1 r2 : regex)
| Alt (r1 r2 : regex)              (* leftmost alternative first *)
| Star (r : regex)                 (* greedy [*] *)
| Grp (n : nat) (r : regex)        (* capture group [n] *)
| Bol                              (* [^] under MULTILINE *)
| Eol                              (* [$] under MULTILINE *)
| WordB                            (* [\b] *)
| Eps.

Definition caps := list (nat * (nat * nat)).

Definition char_at (x : str) (i : nat) : option ascii := nth_error x i.

Definition word_at (x : str) (i : nat) : bool :=
  match char_at x i with Some a => is_word a | None => false end.

(** [m r x i c k] matches [r] at position [i] and passes the end position
    and the captures to the continuation [k]; the first success wins. A
    starred body must consume input, so [length x - i + 1] rounds suffice. *)
Fixpoint m (r : regex) (x : str) (i : nat) (c : caps)
         (k : nat -> caps -> option (nat * caps)) {struct r} : option (nat * caps) :=
  match r with
  | Cls f =>
      match char_at x i with
      | Some a => if f a then k (S i) c else None
      | None => None
      end
  | Seq r1 r2 => m r1 x i c (fun j c' => m r2 x j c' k)
  | Alt r1 r2 =>
      match m r1 x i c k with
      | Some res => Some res
      | None => m r2 x i c k
      end
  | Star r1 =>
      (fix loop (fuel : nat) (i : nat) (c : caps) {struct fuel} :=
         match fuel with
         | O => k i c
         | S f =>
             match m r1 x i c (fun j c' => if Nat.eqb j i then None else loop f j c') with
             | Some res => Some res
             | None => k i c
             end
         end) (S (List.length x - i)) i c
  | Grp n r1 => m r1 x i c (fun j c' => k j ((n, (i, j)) :: c'))
  | Bol =>
      if Nat.eqb i 0 then k i c
      else match char_at x (i - 1) with
           | Some a => if Ascii.eqb a nl then k i c else None
           | None => None
           end
  | Eol =>
      match char_at x i with
      | None => k i c
      | Some a => if Ascii.eqb a nl then k i c else None
      end
  | WordB =>
      let before := if Nat.eqb i 0 then false else word_at x (i - 1) in
      if xorb before (word_at x i) then k i c else None
  | Eps => k i c
  end.

Definition match_at (r : regex) (x : str) (i : nat) : option (nat * caps) :=
  m r x i [] (fun j c => Some (j, c)).

(** A match: start, end and captures. *)
Record rmatch := { mstart : nat; mend : nat; mcaps : caps }.

Fixpoint search_from (r : regex) (x : str) (i : nat) (fuel : nat) : option rmatch :=
  match fuel with
  | O => None
  | S f =>
      match match_at r x i with
      | Some (j, c) => Some {| mstart := i; mend := j; mcaps := c |}
      | None => search_from r x (S i) f
      end
  end.

(** [pattern.search(x)] *)
Definition search (r : regex) (x : str) : option rmatch :=
  search_from r x 0 (S (List.length x)).

(** [m.group(n)] (only for groups that took part in the match) *)
Definition group (x : str) (mt : rmatch) (n : nat) : str :=
  match find (fun p => Nat.eqb (fst p) n) (mcaps mt) with
  | Some (_, (i, j)) => slice x i j
  | None => []
  end.

(** [pattern.finditer(x)]: successive non-overlapping matches. *)
Fixpoint finditer_from (r : regex) (x : str) (i : nat) (fuel : nat) : list rmatch :=
  match fuel with
  | O => []
  | S f =>
      match search_from r x i (S (List.length x - i)) with
      | Some mt =>
          mt :: finditer_from r x (if Nat.ltb (mstart mt) (mend mt) then mend mt else S (mend mt)) f
      | None => []
      end
  end.
Definition finditer (r : regex) (x : str) : list rmatch :=
  finditer_from r x 0 (S (List.length x)).

(** [re.split(pattern, x)] for a pattern without capture groups in the split. *)
Fixpoint split_pieces (x : str) (pos : nat) (ms : list rmatch) : list str :=
  match ms with
  | [] => [slice x pos (List.length x)]
  | mt :: r => slice x pos (mstart mt) :: split_pieces x (mend mt) r
  end.
Definition split (r : regex) (x : str) : list str := split_pieces x 0 (finditer r x).

(** Building blocks *)
Definition chr (a : ascii) : regex := Cls (fun b => Ascii.eqb a b).
(** a literal under IGNORECASE *)
Fixpoint lit_ci (w : string) : regex :=
  match w with
  | EmptyString => Eps
  | String a r => Seq (Cls (fun b => Ascii.eqb (to_lower a) (to_lower b))) (lit_ci r)
  end.
Definition plus (r : regex) : regex := Seq r (Star r).
Definition opt (r : regex) : regex := Alt r Eps.
Definition digit : regex := Cls is_digit.
Definition space : regex := Cls is_space.
(** [.]: any character but a newline *)
Definition dot_any : regex := Cls (fun a => negb (Ascii.eqb a nl)).
(** [\d+(?:\.\d+)*] *)
Definition dotted_num : regex := Seq (plus digit) (Star (Seq (chr "."%char) (plus digit))).
(** [\d+(?:\.\d+)+] *)
Definition dotted_num2 : regex := Seq (plus digit) (plus (Seq (chr "."%char) (plus digit))).

(** [re.sub(pattern, repl, x)] for a pattern that never matches the empty
    string and a replacement without group references:
    [repl.join(re.split(pattern, x))]. *)
Definition sub (r : regex) (repl x : str) : str := join repl (split r x).

End Re.

(** ** [src/chunking/section_tagger.py] *)
Module SectionTagger.
Import Py Re.

(** [SECTION_RE]: [\bSection\s+], group 1 [\d+(?:\.\d+)*], then [\b];
    IGNORECASE *)
Definition SECTION_RE : regex :=
  Seq WordB (Seq (lit_ci "Section") (Seq (plus space) (Seq (Grp 1 dotted_num) WordB))).

(** [PLAIN_NUM_RE = r'^\s*(\d+(?:\.\d+)+)\s+'], MULTILINE *)
Definition PLAIN_NUM_RE : regex :=
  Seq Bol (Seq (Star space) (Seq (Grp 1 dotted_num2) (plus space))).

(** [EXHIBIT_RE = r'\bExhibit\s+([A-Z]\d*|[A-Z])\b'], IGNORECASE: the class
    [[A-Z]] then also takes the lower-case letters. *)
Definition EXHIBIT_RE : regex :=
  Seq WordB (Seq (lit_ci "Exhibit") (Seq (plus space)
    (Seq (Grp 1 (Alt (Seq (Cls is_alpha) (Star digit)) (Cls is_alpha))) WordB))).

Definition find_section_label (text : str) : option str :=
  match search SECTION_RE text with
  | Some mt => Some (s "Section " ++ group text mt 1)
  | None =>
      match search EXHIBIT_RE text with
      | Some mt => Some (s "Exhibit " ++ upper (group text mt 1))
      | None =>
          match search PLAIN_NUM_RE text with
          | Some mt => Some (s "Section " ++ group text mt 1)
          | None => None
          end
      end
  end.

End SectionTagger.

(** ** [src/chunking/chunker.py] *)
Module Chunker.
Import Py Re.
Local Open Scope Z_scope.

Definition zlen (x : str) : Z := Z.of_nat (List.length x).

(** [HEADING_RE], flags [(?im)]: [^], the named group [h] (group 1) over the
    six heading forms, then [\s*.*$].  The second form begins with the
    non-ASCII characters U+0E22 U+0E07 and matches no ASCII text, so over the
    ASCII model it is the empty class. *)
Definition heading_forms : regex :=
  Alt (Seq (Alt (lit_ci "section") (Seq (lit_ci "sec") (opt (chr "."%char))))
           (Seq (plus space) dotted_num))
  (Alt (Cls (fun _ => false))
  (Alt (Seq dotted_num2 (Seq (Star space)
         (Cls (fun a => Ascii.eqb a ":"%char || Ascii.eqb a "-"%char))))
  (Alt (Seq (lit_ci "exhibit") (Seq (plus space) (Seq (Cls is_alpha) (Seq (Star digit) WordB))))
  (Alt (Seq (lit_ci "schedule") (Seq (plus space)
         (Seq (plus (Cls (fun a => is_alpha a || is_digit a))) WordB)))
       (Seq (lit_ci "appendix") (Seq (plus space)
         (Seq (plus (Cls (fun a => is_alpha a || is_digit a))) WordB))))))).

Definition HEADING_RE : regex :=
  Seq Bol (Seq (Grp 1 heading_forms) (Seq (Star space) (Seq (Star dot_any) Eol))).

(** [re.split(r"\n\s*\n+", ...)] *)
Definition PARA_RE : regex := Seq (chr nl) (Seq (Star space) (plus (chr nl))).

Definition _para_split (text : str) : list str :=
  let parts := split PARA_RE (replace_cr text) in
  map strip (filter (fun p => match strip p with [] => false | _ => true end) parts).

Record block := { heading : option str; btext : str; bstart : nat; bend : nat }.

Fixpoint blocks_of (text : str) (ms : list rmatch) : list block :=
  match ms with
  | [] => []
  | mt :: r =>
      let e := match r with
               | mt' :: _ => mstart mt'
               | [] => List.length text
               end in
      {| heading := Some (strip (group text mt 1));
         btext := strip (slice text (mstart mt) e);
         bstart := mstart mt; bend := e |} :: blocks_of text r
  end.

Definition split_into_section_blocks (text0 : str) : list block :=
  let text := strip (replace_cr text0) in
  match text with
  | [] => []
  | _ =>
      match finditer HEADING_RE text with
      | [] => [{| heading := None; btext := text; bstart := 0; bend := List.length text |}]
      | ms => blocks_of text ms
      end
  end.

Record chunk := {
  id : Z; ctext : str; section_heading : option str; start_char : Z; end_char : Z }.

(** The variables of [chunk_text] that [flush] reads and writes
    ([nonlocal chunk_id, buf, buf_len, buf_start_char], and [chunks]). *)
Record cstate := {
  chunks : list chunk; chunk_id : Z; buf : list str; buf_len : Z; buf_start_char : Z }.

Definition sum_len (xs : list str) : Z := fold_right (fun x acc => zlen x + 2 + acc) 0 xs.

(** [buf[-n:]] for [n > 0] *)
Definition py_tail {A} (n : Z) (l : list A) : list A :=
  skipn (List.length l - Z.to_nat n) l.

Definition flush (heading : option str) (min_chars : Z) (buf_end_char : Z)
                 (st : cstate) : cstate :=
  match buf st with
  | [] => st
  | b =>
      let out := strip (join [nl; nl] b) in
      let cs := if zlen out >=? min_chars
                then chunks st ++ [{| id := chunk_id st; ctext := out;
                                      section_heading := heading;
                                      start_char := Z.max (buf_start_char st) 0;
                                      end_char := Z.max buf_end_char 0 |}]
                else chunks st in
      let cid := if zlen out >=? min_chars then chunk_id st + 1 else chunk_id st in
      {| chunks := cs; chunk_id := cid; buf := []; buf_len := 0;
         buf_start_char := buf_start_char st |}
  end.

(** One iteration of [for p in paras]; the pair carries [running]. *)
Definition para_step (heading : option str) (block_start max_chars min_chars
                      overlap_paragraphs : Z) (acc : cstate * Z) (p : str) : cstate * Z :=
  let (st, running) := acc in
  let p_len := zlen p + 2 in
  let st' :=
    match buf st with
    | [] => {| chunks := chunks st; chunk_id := chunk_id st; buf := [p];
               buf_len := p_len; buf_start_char := running |}
    | b =>
        if buf_len st + p_len <=? max_chars then
          {| chunks := chunks st; chunk_id := chunk_id st; buf := b ++ [p];
             buf_len := buf_len st + p_len; buf_start_char := buf_start_char st |}
        else
          let st1 := flush heading min_chars running st in
          let overlap := if 0 <? overlap_paragraphs
                         then py_tail overlap_paragraphs (buf st1) else [] in
          let nb := overlap ++ [p] in
          {| chunks := chunks st1; chunk_id := chunk_id st1; buf := nb;
             buf_len := sum_len nb;
             buf_start_char := match overlap with
                               | [] => running
                               | _ => Z.max (running - sum_len overlap) block_start
                               end |}
    end in
  (st', running + p_len).

Definition chunk_block (max_chars min_chars overlap_paragraphs : Z)
                       (st : cstate) (bl : block) : cstate :=
  let block_start := Z.of_nat (bstart bl) in
  let st0 := {| chunks := chunks st; chunk_id := chunk_id st; buf := [];
                buf_len := 0; buf_start_char := block_start |} in
  let '(st1, running) :=
    fold_left (para_step (heading bl) block_start max_chars min_chars overlap_paragraphs)
              (_para_split (btext bl)) (st0, block_start) in
  flush (heading bl) min_chars running st1.

(** [chunk_text(text, max_chars, overlap_chars, min_chars, overlap_paragraphs)];
    [overlap_chars] is ignored by the source and left out. *)
Definition chunk_text (text : str) (max_chars min_chars overlap_paragraphs : Z) : list chunk :=
  let raw := replace_cr text in
  chunks (fold_left (chunk_block max_chars min_chars overlap_paragraphs)
                    (split_into_section_blocks raw)
                    {| chunks := []; chunk_id := 0; buf := []; buf_len := 0;
                       buf_start_char := 0 |}).

(** Three paragraphs ["aaaa"], ["bbbb"], ["cccc"] separated by blank lines. *)
Definition three_paras : str := s "aaaa" ++ [nl; nl] ++ s "bbbb" ++ [nl; nl] ++ s "cccc".

End Chunker.

(** ** Parsed JSON values and Python dicts *)
Module Json.
Import Py.
Local Open Scope Z_scope.

(** A value returned by [json.loads]; objects are dicts, kept in insertion
    order as association lists. *)
Inductive json :=
| JNull
| JBool (b : bool)
| JInt (z : Z)
| JFloat (q : Q)
| JStr (x : str)
| JArr (l : list json)
| JObj (kv : list (str * json)).

Definition dict := list (str * json).

Definition str_eqb (a b : str) : bool :=
  if list_eq_dec ascii_dec a b then true else false.

(** [d.get(k)] as an option, [None] when the key is absent *)
Fixpoint dget (k : str) (d : dict) : option json :=
  match d with
  | [] => None
  | (k', v) :: r => if str_eqb k k' then Some v else dget k r
  end.

(** [d.get(k, default)]; [d.get(k)] is [get_d k JNull] *)
Definition get_d (k : str) (dflt : json) (d : dict) : json :=
  match dget k d with Some v => v | None => dflt end.

(** [d[k] = v]: an existing key keeps its place, a new key goes last *)
Fixpoint dset (k : str) (v : json) (d : dict) : dict :=
  match d with
  | [] => [(k, v)]
  | (k', v') :: r => if str_eqb k k' then (k', v) :: r else (k', v') :: dset k v r
  end.

(** [d.pop(k, None)] (the value is discarded) *)
Fixpoint dpop (k : str) (d : dict) : dict :=
  match d with
  | [] => []
  | (k', v') :: r => if str_eqb k k' then r else (k', v') :: dpop k r
  end.

(** Python truthiness *)
Definition truthy (j : json) : bool :=
  match j with
  | JNull => false
  | JBool b => b
  | JInt z => negb (z =? 0)
  | JFloat q => negb (Qeq_bool q 0)
  | JStr x => match x with [] => false | _ => true end
  | JArr l => match l with [] => false | _ => true end
  | JObj kv => match kv with [] => false | _ => true end
  end.

(** [x is True] *)
Definition is_True (j : json) : bool :=
  match j with JBool true => true | _ => false end.

(** [len(x)]; [None] is the [TypeError] of values without a length *)
Definition py_len (j : json) : option Z :=
  match j with
  | JStr x => Some (Z.of_nat (List.length x))
  | JArr l => Some (Z.of_nat (List.length l))
  | JObj kv => Some (Z.of_nat (List.length kv))
  | _ => None
  end.

End Json.

(** ** [src/compliance_engine/analyzer.py] *)
(** ** Python floats: IEEE 754 binary64, round to nearest, ties to even *)
Module F64.
Local Open Scope Z_scope.

(** A float: a finite value (a rational [m * 2^e]), an infinity or NaN. *)
Inductive t := F (q : Q) | PInf | NInf | NaN.

(** [n / d] rounded to the nearest integer, ties to even ([d > 0]). *)
Definition round_ne (n d : Z) : Z :=
  let q := n / d in
  match Z.compare (2 * (n mod d)) d with
  | Lt => q
  | Gt => q + 1
  | Eq => if Z.even q then q else q + 1
  end.

(** [floor(log2(a / b))] for [a, b > 0]. *)
Definition flog2 (a b : Z) : Z :=
  let k := Z.log2 a - Z.log2 b in
  if 0 <=? k then (if b * 2 ^ k <=? a then k else k - 1)
  else (if b <=? a * 2 ^ (- k) then k else k - 1).

(** The float nearest to [x]: a 53-bit significand, exponents down to the
    subnormal [2^-1074]; a result of [2^1024] or more overflows to an
    infinity. *)
Definition round (x : Q) : t :=
  let a := Z.abs (Qnum x) in
  let b := Zpos (Qden x) in
  if a =? 0 then F 0 else
  let e := Z.max (flog2 a b - 52) (-1074) in
  let m := if 0 <=? e then round_ne a (b * 2 ^ e) else round_ne (a * 2 ^ (- e)) b in
  if (0 <=? e) && (2 ^ 1024 <=? m * 2 ^ e) then (if Qnum x <? 0 then NInf else PInf)
  else
    let v := if 0 <=? e then inject_Z (m * 2 ^ e) else m # Z.to_pos (2 ^ (- e)) in
    F (if Qnum x <? 0 then - v else v)%Q.

(** [x + y] *)
Definition add (x y : t) : t :=
  match x, y with
  | F a, F b => round (a + b)
  | NaN, _ | _, NaN => NaN
  | PInf, NInf | NInf, PInf => NaN
  | PInf, _ | _, PInf => PInf
  | NInf, _ | _, NInf => NInf
  end.

(** [x / n] for an int [n > 0]: [n] is converted to a float first. *)
Definition div_int (x : t) (n : nat) : t :=
  match x, round (inject_Z (Z.of_nat n)) with
  | F a, F d => round (a / d)
  | PInf, _ => PInf
  | NInf, _ => NInf
  | _, _ => NaN
  end.

(** [x >= c] and [x < c] against a finite constant [c]; NaN compares false. *)
Definition ge (x : t) (c : Q) : bool :=
  match x with F a => Qle_bool c a | PInf => true | _ => false end.
Definition lt (x : t) (c : Q) : bool :=
  match x with F a => negb (Qle_bool c a) | NInf => true | _ => false end.

(** The float literal [0.40] (the double nearest 2/5); [0.25] is exact. *)
Definition D040 : Q := 3602879701896397 # 9007199254740992.

End F64.

Module Analyzer.
Import Py Json.
Local Open Scope Z_scope.

(** One entry of [retrieved_clauses] (a dict built by [retrieve_clauses]);
    an absent key is [None].  The score is the float [float(score)] of the
    faiss search, held as its exact (finite) value. *)
Record clause := {
  cl_chunk_id : option Z; cl_label : option str; cl_score : option Q; cl_text : str }.

(** What the prompt sent to the claim-generation step is built from. *)
Record prompt := {
  p_requirement : str; p_description : str; p_controls : list str; p_clauses : list clause }.

(** Result of [analyze_requirement]: the returned dict, or an exception. *)
Inductive outcome :=
| Verdict (data : dict)
| Raises.

(** The function as a program that may call the external model once:
    [Complete p k] sends [p] and continues with the reply's content. *)
Inductive prog :=
| Done (o : outcome)
| Complete (p : prompt) (k : str -> prog).

(** Feed [content] as the reply to every call. *)
Fixpoint run (pr : prog) (content : str) : outcome :=
  match pr with
  | Done o => o
  | Complete _ k => run (k content) content
  end.

Definition FULLY : str := s "Fully Compliant".
Definition PARTIAL : str := s "Partially Compliant".
Definition NONC : str := s "Non-Compliant".

(** [{"name": c, "covered": False, "evidence": []}] *)
Definition fresh_ctrl (c : str) : json :=
  JObj [(s "name", JStr c); (s "covered", JBool false); (s "evidence", JArr [])].

Definition no_evidence_verdict (requirement_name : str) (controls : list str) : dict :=
  [(s "requirement", JStr requirement_name);
   (s "status", JStr NONC);
   (s "confidence", JInt 20);
   (s "controls", JArr (map fresh_ctrl controls));
   (s "rationale", JStr (s "No sufficiently relevant contract language was retrieved for this requirement."));
   (s "gaps", JArr [JStr (s "No evidence found above similarity threshold.")]);
   (s "recommendations", JArr [JStr (s "Add explicit contract language covering these controls.")])].

(** [raw.find("{")] and [raw.rfind("}")], [-1] when absent *)
Fixpoint find_from (a : ascii) (x : str) (i : Z) : Z :=
  match x with
  | [] => -1
  | b :: r => if Ascii.eqb a b then i else find_from a r (i + 1)
  end.
Definition py_find (a : ascii) (x : str) : Z := find_from a x 0.
Definition py_rfind (a : ascii) (x : str) : Z :=
  let i := find_from a (rev x) 0 in
  if i =? -1 then -1 else Z.of_nat (List.length x) - 1 - i.

(** [x[i:j]] with Python's handling of negative and out-of-range bounds *)
Definition py_index (n i : Z) : Z := if i <? 0 then Z.max 0 (n + i) else Z.min i n.
Definition py_slice (x : str) (i j : Z) : str :=
  let n := Z.of_nat (List.length x) in
  slice x (Z.to_nat (py_index n i)) (Z.to_nat (py_index n j)).

Section WithLoads.
(** [json.loads]: [None] is a decoding error. *)
Variable json_loads : str -> option json.

(** [try: json.loads(raw) except: json.loads(raw[start:end + 1])] *)
Definition parse_response (raw : str) : option json :=
  match json_loads raw with
  | Some d => Some d
  | None => json_loads (py_slice raw (py_find "{"%char raw) (py_rfind "}"%char raw + 1))
  end.

(** One round of the post-validation loop: [ctrl.get] raises on a non-dict. *)
Definition repair_ctrl (ctrl : json) : option json :=
  match ctrl with
  | JObj kv =>
      if truthy (get_d (s "covered") JNull kv) && negb (truthy (get_d (s "evidence") JNull kv))
      then Some (JObj (dset (s "covered") (JBool false) kv))
      else Some ctrl
  | _ => None
  end.

Fixpoint repair_all (cs : list json) : option (list json) :=
  match cs with
  | [] => Some []
  | c :: r =>
      match repair_ctrl c, repair_all r with
      | Some c', Some r' => Some (c' :: r')
      | _, _ => None
      end
  end.

(** [sum(1 for c in cs if c.get("covered") is True)] *)
Fixpoint covered_count (cs : list json) : option Z :=
  match cs with
  | [] => Some 0
  | JObj kv :: r =>
      match covered_count r with
      | Some n => Some ((if is_True (get_d (s "covered") JNull kv) then 1 else 0) + n)
      | None => None
      end
  | _ :: _ => None
  end.

(** [sum(len(c.get("evidence", [])) for c in cs)] *)
Fixpoint evidence_quotes (cs : list json) : option Z :=
  match cs with
  | [] => Some 0
  | JObj kv :: r =>
      match py_len (get_d (s "evidence") (JArr []) kv), evidence_quotes r with
      | Some l, Some n => Some (l + n)
      | _, _ => None
      end
  | _ :: _ => None
  end.

(** [status] from [total] and [covered_count] *)
Definition status_of (total covered : Z) : str :=
  if (total >? 0) && (covered =? total) then FULLY
  else if covered =? 0 then NONC
  else PARTIAL.

(** [scores = [c.get("score", 0.0) for c in retrieved_clauses if isinstance(...)]] *)
Definition scores (clauses : list clause) : list Q :=
  fold_right (fun c acc => match cl_score c with Some q => q :: acc | None => acc end)
             [] clauses.

(** [avg_score = sum(scores) / len(scores) if scores else 0.0] in floats:
    the repository's bytecode is CPython 3.11, whose [sum] adds the floats
    one at a time, left to right, starting from the int [0]. *)
Definition avg_score (clauses : list clause) : F64.t :=
  match scores clauses with
  | [] => F64.F 0
  | qs => F64.div_int (fold_left (fun acc q => F64.add acc (F64.F q)) qs (F64.F 0))
                      (List.length qs)
  end.

Definition MAX_CONF : Z := 95.
Definition MIN_CONF : Z := 30.
Definition NO_EVIDENCE_CONF : Z := 20.

(** [base = 20 + int(60 * coverage_ratio)] with
    [coverage_ratio = covered_controls / total_controls]; [int] truncates,
    which is [floor] on the non-negative ratio. *)
Definition base_of (covered_controls total_controls : Z) : Z :=
  20 + Qfloor (60 * (inject_Z covered_controls / inject_Z total_controls))%Q.

(** Lines 132-170: [n_controls] is [len(controls)] (the input list). *)
Definition confidence_of (n_controls covered_controls evidence_quotes : Z)
                         (avg : F64.t) (status : str) : Z :=
  let total_controls := if n_controls =? 0 then 1 else n_controls in
  let base := base_of covered_controls total_controls in
  let base := if evidence_quotes >? 0 then base + 5 else Z.min base NO_EVIDENCE_CONF in
  let base := if F64.ge avg F64.D040 then base + 5
              else if F64.lt avg (25 # 100) then base - 5 else base in
  let base := if str_eqb status FULLY then base + 5
              else if str_eqb status NONC then base - 5 else base in
  if evidence_quotes =? 0 then Z.min NO_EVIDENCE_CONF MAX_CONF
  else Z.max MIN_CONF (Z.min base MAX_CONF).


(** [if not isinstance(data.get("controls"), list): data["controls"] = [...]] *)
Definition ensure_controls (controls : list str) (d1 : dict) : dict :=
  match dget (s "controls") d1 with
  | Some (JArr _) => d1
  | _ => dset (s "controls") (JArr (map fresh_ctrl controls)) d1
  end.

(** [data.get("controls", [])], a list once [ensure_controls] has run *)
Definition controls_list (d2 : dict) : list json :=
  match get_d (s "controls") (JArr []) d2 with
  | JArr l => l
  | _ => []
  end.

(** Everything after [data = json.loads(...)] in the evidence branch. *)
Definition postprocess (controls : list str) (retrieved_clauses : list clause)
                       (parsed : json) : outcome :=
  match parsed with
  | JObj d0 =>
      let d1 := dpop (s "confidence") d0 in
      let d2 := ensure_controls controls d1 in
      let cs := controls_list d2 in
      match repair_all cs with
      | None => Raises
      | Some cs' =>
          let d3 := dset (s "controls") (JArr cs') d2 in
          let n_ctrl := Z.of_nat (List.length cs') in
          let total := if n_ctrl =? 0 then Z.of_nat (List.length controls) else n_ctrl in
          match covered_count cs' with
          | None => Raises
          | Some covered =>
              let status := status_of total covered in
              let d4 := dset (s "status") (JStr status) d3 in
              match evidence_quotes cs' with
              | None => Raises
              | Some q =>
                  let conf := confidence_of (Z.of_nat (List.length controls)) covered q
                                            (avg_score retrieved_clauses) status in
                  Verdict (dset (s "confidence") (JInt conf) d4)
              end
          end
      end
  (* [data.pop("confidence", None)] raises on a list, a string or a number *)
  | _ => Raises
  end.

Definition analyze_requirement (requirement_name requirement_description : str)
           (controls : list str) (retrieved_clauses : list clause) : prog :=
  match retrieved_clauses with
  | [] => Done (Verdict (no_evidence_verdict requirement_name controls))
  | _ =>
      Complete {| p_requirement := requirement_name; p_description := requirement_description;
                  p_controls := controls; p_clauses := retrieved_clauses |}
        (fun content =>
           match parse_response (strip content) with
           | Some data => Done (postprocess controls retrieved_clauses data)
           | None => Done Raises
           end)
  end.

End WithLoads.

(** Field access on a verdict *)
Definition field (k : str) (d : dict) : option json := dget k d.

Definition controls_of (d : dict) : list json :=
  match dget (s "controls") d with Some (JArr l) => l | _ => [] end.

End Analyzer.

(** ** [src/vector_store/faiss_store.py] and [src/rag/retriever.py] *)
Module Retriever.
Import Py Analyzer.
Local Open Scope Z_scope.

(** The metadata dict of a stored vector; an absent key is [None]. *)
Record meta := { m_chunk_id : option Z; m_label : option str }.

(** The empty dict [{}]. *)
Definition no_meta : meta := {| m_chunk_id := None; m_label := None |}.

(** [FaissVectorStore]: [self.dim], the vectors of [self.index] in insertion
    order (the faiss id of a vector is its position), [self.text_by_id] and
    [self.meta_by_id].  [add] keys its texts and metas from
    [start_id = len(self.text_by_id)] on, so the keys of both dicts are always
    [0 .. len - 1]: each dict is the list of its values in key order.  The
    two dicts are not tied to the vectors: [add] puts every embedding in the
    index and keys only [len(texts)] entries. *)
Record store := {
  dim : nat;
  vecs : list (list Q);
  text_by_id : list str;
  meta_by_id : list meta }.

(** [FaissVectorStore(dim)] *)
Definition new_store (d : nat) : store :=
  {| dim := d; vecs := []; text_by_id := []; meta_by_id := [] |}.

(** [self.text_by_id[k]] on a dict with keys [0 .. len - 1]; [None] is the
    [KeyError]. *)
Definition lookup {A} (l : list A) (k : Z) : option A :=
  if k <? 0 then None else nth_error l (Z.to_nat k).

(** [add(embeddings, texts, metas)]; [None] when it raises:
    - [embeddings] empty: [np.array([])] is one-dimensional and the
      [axis=1] of [_normalize] raises;
    - a vector whose length is not [dim]: [np.array] raises on a ragged
      list, [self.index.add] asserts [d == self.d] otherwise;
    - [metas] non-empty and shorter than [texts]: [metas[i]] raises
      [IndexError].
    Otherwise every vector is added to the index, the texts are keyed from
    [start_id] on, each with [metas[i] if metas else {}]. *)
Definition add (st : store) (embeddings : list (list Q)) (texts : list str)
               (metas : option (list meta)) : option store :=
  match embeddings with
  | [] => None
  | _ =>
      if forallb (fun v => Nat.eqb (List.length v) (dim st)) embeddings then
        let new_metas :=
          match metas with
          | Some ((_ :: _) as ms) =>
              if Nat.leb (List.length texts) (List.length ms)
              then Some (firstn (List.length texts) ms) else None
          | _ => Some (repeat no_meta (List.length texts))
          end in
        match new_metas with
        | Some nm => Some {| dim := dim st; vecs := vecs st ++ embeddings;
                             text_by_id := text_by_id st ++ texts;
                             meta_by_id := meta_by_id st ++ nm |}
        | None => None
        end
      else None
  end.

(** Decimal rendering of a non-negative id, for [f"Chunk {doc_id}"]. *)
Fixpoint digits_rev (fuel : nat) (n : nat) : str :=
  match fuel with
  | O => []
  | S f =>
      ascii_of_nat (48 + n mod 10) ::
      (if Nat.ltb n 10 then [] else digits_rev f (n / 10))
  end.
Definition show_nat (n : nat) : str := rev (digits_rev (S n) n).

(** Descending insertion by score; among equal scores the lower id first.
    [fun k l => firstn k (sort_desc l)] is one top-[k] selection of the kind
    faiss makes (see [rank_ok]). *)
Fixpoint insert_desc (x : Z * Q) (l : list (Z * Q)) : list (Z * Q) :=
  match l with
  | [] => [x]
  | y :: r => if negb (Qle_bool (snd y) (snd x)) then y :: insert_desc x r else x :: l
  end.
Definition sort_desc (l : list (Z * Q)) : list (Z * Q) := fold_right insert_desc [] l.
Definition sort_rank (k : nat) (l : list (Z * Q)) : list (Z * Q) := firstn k (sort_desc l).

Section WithEmbedding.
(** [embed_texts([query])[0]]: the external embedding provider. *)
Variable embed : str -> list Q.
(** The inner product that [faiss.IndexFlatIP] computes between the
    L2-normalised query and a L2-normalised stored vector (this is where
    [_normalize] enters). *)
Variable sim : list Q -> list Q -> Q.
(** The score faiss reports for the [-1] padding rows (never read). *)
Variable pad_score : Q.
(** The top-[k] selection of [IndexFlatIP.search] over the (id, score)
    rows: [k] rows of highest score, best first.  Which rows of equal score
    it keeps, and in which order, is faiss's own choice. *)
Variable rank : nat -> list (Z * Q) -> list (Z * Q).

(** The (id, score) row of every stored vector. *)
Definition scored (st : store) (q : list Q) : list (Z * Q) :=
  combine (map Z.of_nat (seq 0 (List.length (vecs st)))) (map (sim q) (vecs st)).

(** [self.index.search(q, top_k)]: faiss asserts [d == self.d] and
    [k > 0] ([None]); the result is the top [top_k] rows, padded with id
    [-1] when the index holds fewer vectors. *)
Definition index_search (st : store) (q : list Q) (top_k : nat) : option (list (Z * Q)) :=
  if Nat.eqb (List.length q) (dim st) && negb (Nat.eqb top_k 0)
  then Some (rank top_k (scored st q) ++ repeat (-1, pad_score) (top_k - List.length (vecs st)))
  else None.

(** The loop of [FaissVectorStore.search]: skip [-1], attach text and meta
    ([None] on a [KeyError]). *)
Fixpoint keep_hits (st : store) (rows : list (Z * Q)) : option (list (Z * Q * str * meta)) :=
  match rows with
  | [] => Some []
  | (doc_id, score) :: r =>
      if doc_id =? -1 then keep_hits st r
      else match lookup (text_by_id st) doc_id, lookup (meta_by_id st) doc_id with
           | Some t, Some m => option_map (cons (doc_id, score, t, m)) (keep_hits st r)
           | _, _ => None
           end
  end.

(** [FaissVectorStore.search] *)
Definition search (st : store) (query_embedding : list Q) (top_k : nat)
  : option (list (Z * Q * str * meta)) :=
  match index_search st query_embedding top_k with
  | Some rows => keep_hits st rows
  | None => None
  end.

Definition query_of (requirement_name requirement_description : str) (controls : list str) : str :=
  s "Requirement: " ++ requirement_name ++ [nl] ++
  s "Description: " ++ requirement_description ++ [nl] ++
  s "Controls: " ++ join (s ", ") controls.

Definition to_result (h : Z * Q * str * meta) : clause :=
  let '(doc_id, score, text, mt) := h in
  {| cl_chunk_id := Some (match m_chunk_id mt with Some c => c | None => doc_id end);
     cl_label := Some (match m_label mt with
                       | Some l => l
                       | None => s "Chunk " ++ show_nat (Z.to_nat doc_id)
                       end);
     cl_score := Some score;
     cl_text := text |}.

Definition passes (min_score : Q) (r : clause) : bool :=
  match cl_score r with Some q => Qle_bool min_score q | None => false end.

Definition retrieve_clauses (st : store) (requirement_name requirement_description : str)
           (controls : list str) (top_k : nat) (min_score : Q) : option (list clause) :=
  let query := query_of requirement_name requirement_description controls in
  let q_emb := embed query in
  match search st q_emb top_k with
  | Some hits =>
      let results := map to_result hits in
      Some (filter (passes min_score) results)
  | None => None
  end.

End WithEmbedding.

(** Descending order of scores, on (id, score) rows, on hits and on results. *)
Definition hscore (h : Z * Q * str * meta) : Q := let '(_, sc, _, _) := h in sc.

Definition desc_pair (a b : Z * Q) : Prop := (snd b <= snd a)%Q.
Definition desc_hit (a b : Z * Q * str * meta) : Prop := (hscore b <= hscore a)%Q.
Definition desc_clause (a b : clause) : Prop :=
  exists qa qb, cl_score a = Some qa /\ cl_score b = Some qb /\ (qb <= qa)%Q.

(** What faiss's top-[k] selection guarantees: the first [k] rows of some
    descending ordering of all the rows. *)
Definition rank_ok (rank : nat -> list (Z * Q) -> list (Z * Q)) : Prop :=
  forall k l, exists l', Permutation l' l /\ StronglySorted desc_pair l' /\ rank k l = firstn k l'.

(** A store whose two dicts hold an entry for every vector of the index. *)
Definition aligned (st : store) : Prop :=
  (List.length (vecs st) <= List.length (text_by_id st))%nat /\
  (List.length (vecs st) <= List.length (meta_by_id st))%nat.

End Retriever.

(** ** [src/chatbot/chat.py] *)
Module Chat.
Import Py Analyzer Retriever.
Local Open Scope Z_scope.

Section WithEmbedding.
(** [embed_texts([question], model="text-embedding-3-small")[0]]: the same
    provider and model as the default of [embed_texts] used by
    [retrieve_clauses]. *)
Variable embed : str -> list Q.
Variable sim : list Q -> list Q -> Q.
Variable pad_score : Q.
Variable rank : nat -> list (Z * Q) -> list (Z * Q).

(** [{"chunk_id": meta.get("chunk_id", doc_id), "score": score, "text": text}]:
    the dict has no ["label"] key. *)
Definition to_chat (h : Z * Q * str * meta) : clause :=
  let '(doc_id, score, text, mt) := h in
  {| cl_chunk_id := Some (match m_chunk_id mt with Some c => c | None => doc_id end);
     cl_label := None;
     cl_score := Some score;
     cl_text := text |}.

Definition retrieve_for_chat (st : store) (question : str) (top_k : nat) : option (list clause) :=
  let q_emb := embed question in
  match search sim pad_score rank st q_emb top_k with
  | Some hits => Some (map to_chat hits)
  | None => None
  end.

End WithEmbedding.

End Chat.

(** ** [src/ingestion/pdf_loader.py] *)
Module PdfLoader.
Import Py Re.

(** [r"\s+"] *)
Definition SPACES_RE : regex := plus space.
(** [r"-\s+"] *)
Definition HYPHEN_SPACES_RE : regex := Seq (chr "-"%char) (plus space).

Definition clean_text (text : str) : str :=
  match text with
  | [] => []
  | _ =>
      let text := sub SPACES_RE [" "%char] text in
      let text := sub HYPHEN_SPACES_RE [] text in
      strip text
  end.

(** [not text or len(text.strip()) < 200] *)
Definition too_short (text : str) : bool :=
  match text with
  | [] => true
  | _ => Nat.ltb (List.length (strip text)) 200
  end.

(** [load_contract_pdf_bytes(pdf_bytes, use_ocr_fallback)].  The three
    extractors are external ([pdfplumber], [PyPDF2], OCR); each argument is
    what the extractor gives on [pdf_bytes], [None] when it raises (the
    exception is printed and the previous [text] kept). *)
Definition load_contract_pdf_bytes (pdfplumber pypdf2 ocr : option str)
           (use_ocr_fallback : bool) : str :=
  let text := match pdfplumber with Some t => t | None => [] end in
  let text := if too_short text
              then match pypdf2 with Some t => t | None => text end
              else text in
  let text := if use_ocr_fallback && too_short text
              then match ocr with Some t => t | None => text end
              else text in
  clean_text text.

End PdfLoader.

(** ** Python string helpers on top of [str] equality *)
Module PyText.
Import Py Json.

(** [x.startswith(p)] *)
Definition prefixb (p x : str) : bool := str_eqb (firstn (List.length p) x) p.

(** [p in x] *)
Fixpoint infixb (p x : str) : bool :=
  prefixb p x || match x with [] => false | _ :: r => infixb p r end.

(** [x.replace(a, r)] for a one-character [a] *)
Definition replace1 (a : ascii) (r : str) (x : str) : str :=
  flat_map (fun b => if Ascii.eqb b a then r else [b]) x.

(** [int(x)] on a string of ASCII digits *)
Fixpoint dec_val (acc : Z) (x : str) : Z :=
  match x with
  | [] => acc
  | a :: r => dec_val (10 * acc + (Z.of_nat (code a) - 48))%Z r
  end.

(** The text of [x.split(" ", 1)[1]]; [None] is the [IndexError] of a string
    without a space. *)
Fixpoint after_space (x : str) : option str :=
  match x with
  | [] => None
  | a :: r => if Ascii.eqb a " "%char then Some r else after_space r
  end.

(** ["—"] (an em dash), the one non-ASCII string of [report_table.py];
    kept as its UTF-8 bytes, which no ASCII string equals. *)
Definition DASH : str := [ascii_of_nat 226; ascii_of_nat 128; ascii_of_nat 148].

End PyText.

(** ** [src/ui/report_table.py] *)
Module ReportTable.
Import Py Json PyText Analyzer Retriever Re.
Local Open Scope Z_scope.

Section WithBuiltins.
(** [str(v)] of a value that is not a string (a number, a bool, [None], a
    list or a dict); [str] of a string is the string itself. *)
Variable py_str : json -> str.
(** [float(x)] on a string: [Some q] for a finite float, [None] for a
    [ValueError] and for [inf] and [nan] (which [int] then rejects). *)
Variable py_float : str -> option Q.

Definition to_str (v : json) : str :=
  match v with JStr x => x | _ => py_str v end.

(** [_map_state(status)]; [None] is the [AttributeError] of [.strip()] on a
    truthy value that is not a string. *)
Definition _map_state (status : json) : option str :=
  if negb (truthy status) then Some []
  else match status with
       | JStr x =>
           let st := strip x in
           if str_eqb st FULLY || str_eqb st PARTIAL || str_eqb st NONC then Some st
           else if str_eqb st (s "Compliant") then Some FULLY
           else if str_eqb st (s "Partial") then Some PARTIAL
           else Some NONC
       | _ => None
       end.

(** [max(0, min(100, n))] *)
Definition clamp100 (n : Z) : Z := Z.max 0 (Z.min 100 n).

(** [int(f)] truncates toward zero. *)
Definition trunc (q : Q) : Z := if Qle_bool 0 q then Qfloor q else Qceiling q.

(** The least integer that [float()] rejects with [OverflowError]:
    [2^1024 - 2^970] rounds to [2^1024]. *)
Definition FLOAT_OVERFLOW : Z := 2 ^ 1024 - 2 ^ 970.

(** [_to_int_conf(v)]: every exception is caught and gives 0.  [float] of a
    bool is 0.0 or 1.0; [float] of a list or a dict is a [TypeError]. *)
Definition _to_int_conf (v : json) : Z :=
  match v with
  | JNull => 0
  | JStr x =>
      match py_float (replace1 "%"%char [] (strip x)) with
      | Some q => clamp100 (trunc q)
      | None => 0
      end
  | JBool b => if b then 1 else 0
  | JInt z => if FLOAT_OVERFLOW <=? Z.abs z then 0 else clamp100 z
  | JFloat q => clamp100 (trunc q)
  | JArr _ | JObj _ => 0
  end.

(** Group 1 around [Section\s+\d+(?:\.\d+)* ] or [Exhibit\s+[A-Z]\d* ], IGNORECASE *)
Definition NORM_RE : regex :=
  Grp 1 (Alt (Seq (lit_ci "Section") (Seq (plus space) dotted_num))
             (Seq (lit_ci "Exhibit") (Seq (plus space) (Seq (Cls is_alpha) (Star digit))))).

(** [norm_label(label, quote)] for a non-empty stripped [quote]; [None] is
    an exception ([.strip()] on a label that is not a string, or the
    [IndexError] of [split]). *)
Definition norm_label (label : json) (quote : str) : option str :=
  let blob := (if truthy label then to_str label else []) ++ [" "%char] ++ quote in
  match search NORM_RE blob with
  | Some mt =>
      let ref := sub (plus space) [" "%char] (strip (group blob mt 1)) in
      if prefixb (s "section") (lower ref) then
        option_map (fun r => s "Section " ++ r) (after_space ref)
      else if prefixb (s "exhibit") (lower ref) then
        option_map (fun r => s "Exhibit " ++ r) (after_space ref)
      else Some ref
  | None =>
      match (if truthy label then label else JStr (s "Contract")) with
      | JStr x => Some (match strip x with [] => s "Contract" | y => y end)
      | _ => None
      end
  end.

(** [groups]: label to quotes, in insertion order. *)
Definition groups := list (str * list str).

(** [if lab not in groups: groups[lab] = []] then
    [if q not in groups[lab]: groups[lab].append(q)] *)
Fixpoint group_add (lab q : str) (g : groups) : groups :=
  match g with
  | [] => [(lab, [q])]
  | (l, qs) :: r =>
      if str_eqb lab l then (l, if existsb (str_eqb q) qs then qs else qs ++ [q]) :: r
      else (l, qs) :: group_add lab q r
  end.

(** [add(label, quote)]; [(quote or "").strip()] raises on a truthy quote
    that is not a string. *)
Definition add_quote (g : groups) (label quote : json) : option groups :=
  match (if truthy quote then quote else JStr []) with
  | JStr x =>
      match strip x with
      | [] => Some g
      | q =>
          match norm_label label q with
          | Some lab => Some (group_add lab q g)
          | None => None
          end
      end
  | _ => None
  end.

(** [for x in (v or [])]: a falsy value is empty; iterating a truthy value
    that is not a list raises ([TypeError], or an [AttributeError] on the
    elements a string or a dict yields). *)
Definition iter_or_empty (v : json) : option (list json) :=
  if negb (truthy v) then Some []
  else match v with JArr l => Some l | _ => None end.

Fixpoint fold_opt {A B} (f : A -> B -> option A) (acc : A) (l : list B) : option A :=
  match l with
  | [] => Some acc
  | b :: r => match f acc b with Some a => fold_opt f a r | None => None end
  end.

(** [add(e.get("label", ""), e.get("quote", ""))]; [.get] raises on a non-dict. *)
Definition add_evidence (g : groups) (e : json) : option groups :=
  match e with
  | JObj kv => add_quote g (get_d (s "label") (JStr []) kv) (get_d (s "quote") (JStr []) kv)
  | _ => None
  end.

Definition add_control (g : groups) (c : json) : option groups :=
  match c with
  | JObj kv =>
      match iter_or_empty (get_d (s "evidence") JNull kv) with
      | Some es => fold_opt add_evidence g es
      | None => None
      end
  | _ => None
  end.

Definition add_rq_item (g : groups) (item : json) : option groups :=
  match item with
  | JObj kv => add_quote g (get_d (s "label") (JStr []) kv) (get_d (s "quote") (JStr []) kv)
  | _ => add_quote g (JStr (s "Contract")) (JStr (to_str item))
  end.

(** The [groups] dict once the controls' evidence and the ["Relevant Quotes"]
    items have been added. *)
Definition quote_groups (result : dict) : option groups :=
  match iter_or_empty (get_d (s "controls") JNull result) with
  | None => None
  | Some cs =>
      match fold_opt add_control [] cs with
      | None => None
      | Some g =>
          match get_d (s "Relevant Quotes") JNull result with
          | JArr ((_ :: _) as rq) => fold_opt add_rq_item g rq
          | _ => Some g
          end
      end
  end.

(** [sort_key(k)]: [(0, [int(n) for n in re.findall(r"\d+", k)])],
    [(1, k)] or [(2, k)]. *)
Inductive skey :=
| KSec (ns : list Z)
| KExh (k : str)
| KOther (k : str).

Definition sort_key (k : str) : skey :=
  let ks := lower k in
  if prefixb (s "section") ks then
    KSec (map (fun mt => dec_val 0 (slice k (mstart mt) (mend mt))) (finditer (plus digit) k))
  else if prefixb (s "exhibit") ks then KExh k
  else KOther k.

(** Python's [<] on lists of ints and on strings (lexicographic) *)
Fixpoint zlist_lt (a b : list Z) : bool :=
  match a, b with
  | [], [] => false
  | [], _ :: _ => true
  | _ :: _, [] => false
  | x :: a', y :: b' => (x <? y) || ((x =? y) && zlist_lt a' b')
  end.

Fixpoint str_lt (a b : str) : bool :=
  match a, b with
  | [], [] => false
  | [], _ :: _ => true
  | _ :: _, [] => false
  | x :: a', y :: b' =>
      Nat.ltb (code x) (code y) || (Nat.eqb (code x) (code y) && str_lt a' b')
  end.

(** [<] on the key tuples *)
Definition key_lt (k1 k2 : skey) : bool :=
  match k1, k2 with
  | KSec a, KSec b => zlist_lt a b
  | KSec _, _ => true
  | KExh _, KSec _ => false
  | KExh a, KExh b => str_lt a b
  | KExh _, KOther _ => true
  | KOther _, (KSec _ | KExh _) => false
  | KOther a, KOther b => str_lt a b
  end.

(** [sorted(keys, key=sort_key)]: a stable sort, here by insertion (an
    element goes after every earlier one whose key is not greater). *)
Fixpoint insert_key (x : str) (l : list str) : list str :=
  match l with
  | [] => [x]
  | y :: r => if key_lt (sort_key x) (sort_key y) then x :: l else y :: insert_key x r
  end.
Definition sorted_labels (ks : list str) : list str :=
  fold_left (fun acc k => insert_key k acc) ks [].

Definition lookup_group (lab : str) (g : groups) : list str :=
  match find (fun p => str_eqb (fst p) lab) g with Some (_, qs) => qs | None => [] end.

(** The groups shown: the first [max_sources] labels in key order, each with
    its first [max_quotes_per_source] quotes (non-negative bounds). *)
Definition select_groups (max_sources max_quotes_per_source : nat) (g : groups)
  : list (str * list str) :=
  map (fun lab => (lab, firstn max_quotes_per_source (lookup_group lab g)))
      (firstn max_sources (sorted_labels (map fst g))).

(** [lines]: ["lab:"], ["- q"] per quote, then [""]; joined by newlines,
    stripped, ["—"] when that is empty. *)
Definition render (sel : list (str * list str)) : str :=
  let lines := flat_map (fun lq => (fst lq ++ [":"%char]) :: map (fun q => s "- " ++ q) (snd lq) ++ [[]])
                        sel in
  match strip (join [nl] lines) with [] => DASH | out => out end.

Definition _collect_grouped_quotes (result : dict)
           (max_sources max_quotes_per_source : nat) : option str :=
  match quote_groups result with
  | None => None
  | Some [] => Some DASH
  | Some g => Some (render (select_groups max_sources max_quotes_per_source g))
  end.

(** One row of [build_table_rows]. *)
Record row := {
  r_question : json; r_state : str; r_confidence : str; r_quotes : str; r_rationale : json }.

(** [f"{n}%"] for [n >= 0] *)
Definition percent (n : Z) : str := show_nat (Z.to_nat n) ++ ["%"%char].

Definition build_row (r : dict) : option row :=
  let question := get_d (s "Compliance Question") (get_d (s "requirement") (JStr []) r) r in
  let state_raw := get_d (s "Compliance State") (get_d (s "status") (JStr []) r) r in
  let conf_raw := get_d (s "Confidence") (get_d (s "confidence") (JInt 0) r) r in
  let rationale := get_d (s "Rationale") (get_d (s "rationale") (JStr []) r) r in
  match _map_state state_raw with
  | None => None
  | Some st =>
      match _collect_grouped_quotes r 8 2 with
      | None => None
      | Some qs =>
          Some {| r_question := question; r_state := st;
                  r_confidence := percent (_to_int_conf conf_raw);
                  r_quotes := qs;
                  r_rationale := if truthy rationale then rationale else JStr DASH |}
      end
  end.

Fixpoint build_table_rows (results : list dict) : option (list row) :=
  match results with
  | [] => Some []
  | r :: rs =>
      match build_row r, build_table_rows rs with
      | Some x, Some xs => Some (x :: xs)
      | _, _ => None
      end
  end.

End WithBuiltins.

End ReportTable.

(** ** [src/app.py]: HTML helpers and the index built for an upload *)
Module App.
Import Py Json PyText Chunker SectionTagger Analyzer Retriever.
Local Open Scope Z_scope.

Section WithStr.
Variable py_str : json -> str.

(** [_escape_html(s)]: [None] gives [""], anything else [str(s)] with [&],
    [<] and [>] replaced, in that order. *)
Definition _escape_html (v : json) : str :=
  match v with
  | JNull => []
  | _ =>
      replace1 ">"%char (s "&gt;")
        (replace1 "<"%char (s "&lt;")
           (replace1 "&"%char (s "&amp;") (ReportTable.to_str py_str v)))
  end.

End WithStr.

Definition GREEN : str * str := (s "#DCFCE7", s "#166534").
Definition YELLOW : str * str := (s "#FEF9C3", s "#854D0E").
Definition RED : str * str := (s "#FEE2E2", s "#991B1B").
Definition GRAY : str * str := (s "#E5E7EB", s "#111827").

(** The colours [badge_html(state)] picks. *)
Definition badge_colors (state : str) : str * str :=
  let st := replace1 "-"%char [" "%char] (replace1 "_"%char [" "%char] (lower (strip state))) in
  if infixb (s "fully") st || str_eqb st (s "compliant") then GREEN
  else if infixb (s "partial") st then YELLOW
  else if infixb (s "non") st then RED
  else GRAY.

Definition badge_html (state : str) : str :=
  let '(bg, fg) := badge_colors state in
  let label := match state with [] => s "Unknown" | _ => state end in
  s "<span style='background:" ++ bg ++ s ";color:" ++ fg ++
  s ";padding:4px 10px;border-radius:999px;font-weight:600;font-size:0.85rem;white-space:nowrap;'>" ++
  label ++ s "</span>".

(** The metadata the app stores per chunk: [chunk_id] and
    [find_section_label(c["text"]) or "Unlabeled"] (the [start_char] and
    [end_char] it also stores are never read back). *)
Definition meta_of (c : chunk) : meta :=
  {| m_chunk_id := Some (id c);
     m_label := Some (match find_section_label (ctext c) with
                      | Some ((_ :: _) as l) => l
                      | _ => s "Unlabeled"
                      end) |}.

(** Step 2 of the app for a fresh upload: chunk, embed, build the store.
    [embed_texts] is the external embedding call; [embs[0]] raises
    [IndexError] ([None]) when it returns nothing; the store is
    [FaissVectorStore(dim=len(embs[0]))] and [store.add] may raise too. *)
Definition build_index (embed_texts : list str -> list (list Q)) (contract_text : str)
  : option (list chunk * store) :=
  let chunks := chunk_text contract_text 3000 400 1 in
  let chunk_texts := map ctext chunks in
  let metas := map meta_of chunks in
  let embs := embed_texts chunk_texts in
  match embs with
  | [] => None
  | e0 :: _ =>
      match add (new_store (List.length e0)) embs chunk_texts (Some metas) with
      | Some st => Some (chunks, st)
      | None => None
      end
  end.

End App.

(** ** Concrete inputs used to exercise the embedding *)
Module Inputs.
Import Py Json Analyzer.
Local Open Scope string_scope.

Definition ctrl (name : string) (covered : bool) (quotes : list string) : json :=
  JObj [(s "name", JStr (s name)); (s "covered", JBool covered);
        (s "evidence", JArr (map (fun q => JObj [(s "chunk_id", JInt 0);
                                                 (s "label", JStr (s "Section 1"));
                                                 (s "quote", JStr (s q))]) quotes))].

Definition clause1 : clause :=
  {| cl_chunk_id := Some 0%Z; cl_label := Some (s "Section 1");
     cl_score := Some (1 # 2); cl_text := s "The vendor encrypts data at rest." |}.

Definition controls3 : list str := [s "Encryption"; s "Access control"; s "Logging"].

Definition verdict_of (o : outcome) : dict :=
  match o with Verdict d => d | Raises => [] end.

(** A [json.loads] that decodes the single reply [reply] to [value]. *)
Definition loads_only (reply : str) (value : json) : str -> option json :=
  fun raw => if str_eqb raw reply then Some value else None.

Definition reply : str := s "{...}".

Definition args_name : str := s "Data protection".
Definition args_desc : str := s "Data is protected at rest and in transit.".

(** The model returns one control, covered with one quote. *)
Definition one_covered : json :=
  JObj [(s "requirement", JStr (s "Data protection"));
        (s "status", JStr PARTIAL); (s "confidence", JInt 99);
        (s "controls", JArr [ctrl "Encryption" true ["encrypts data at rest"]])].

(** The model claims a control covered without evidence and one with. *)
Definition one_unsupported : json :=
  JObj [(s "status", JStr FULLY);
        (s "controls", JArr [ctrl "Encryption" true ["encrypts data at rest"];
                             ctrl "Access control" true [];
                             ctrl "Logging" false []])].

(** The model returns no [controls] key. *)
Definition no_controls : json := JObj [(s "status", JStr FULLY); (s "confidence", JInt 90)].

(** A store of three one-dimensional vectors with a text and a meta each,
    a query embedding, and a similarity under which vector [[x]] scores
    [x / 4] against it. *)
Definition store3 : Retriever.store :=
  {| Retriever.dim := 1%nat; Retriever.vecs := [[1%Q]; [2%Q]; [3%Q]];
     Retriever.text_by_id := [s "a"; s "b"; s "c"];
     Retriever.meta_by_id := [Retriever.no_meta; Retriever.no_meta; Retriever.no_meta] |}.
Definition embed1 (_ : str) : list Q := [1%Q].
Definition sim4 (q v : list Q) : Q := (hd 0 q * hd 0 v * (1 # 4))%Q.

(** A reply whose only control carries its quote as a bare string. *)
Definition ctrl_str : json :=
  JObj [(s "name", JStr (s "Encryption")); (s "covered", JBool true);
        (s "evidence", JArr [JStr (s "encrypts data at rest")])].
Definition str_evidence : json :=
  JObj [(s "status", JStr FULLY); (s "controls", JArr [ctrl_str])].

End Inputs.

Example tag1 : SectionTagger.find_section_label (Py.s "See Section 4.2 and Exhibit A for details")
               = Some (Py.s "Section 4.2").
Proof. vm_compute. reflexivity. Qed.
Example tag2 : SectionTagger.find_section_label (Py.s "no headings here") = None.
Proof. vm_compute. reflexivity. Qed.
Example tag3 : SectionTagger.find_section_label (Py.s "see exhibit g13, x") = Some (Py.s "Exhibit G13").
Proof. vm_compute. reflexivity. Qed.
Example tag4 : SectionTagger.find_section_label (Py.s "intro
  4.2 Data") = Some (Py.s "Section 4.2").
Proof. vm_compute. reflexivity. Qed.
Example tag5 : SectionTagger.find_section_label (Py.s "Section 4.2a") = Some (Py.s "Section 4").
Proof. vm_compute. reflexivity. Qed.

(** The float mean of the scores 0.15 and 0.35 is exactly 0.25 (no -5
    step), though the exact mean of these two doubles is below 1/4. *)
Example avg_float :
  let c q := {| Analyzer.cl_chunk_id := None; Analyzer.cl_label := None;
                Analyzer.cl_score := Some q; Analyzer.cl_text := [] |} in
  let qs := [5404319552844595 # 36028797018963968; 3152519739159347 # 9007199254740992] in
  (match Analyzer.avg_score (map c qs) with F64.F x => Qeq_bool x (1 # 4) | _ => false end = true) /\
  Qle_bool (1 # 4) ((fold_right Qplus 0 qs) / 2) = false.
Proof. vm_compute. split; reflexivity. Qed.

(** With those scores, three input controls and one covered control, the
    confidence is 50. *)
Example avg_float_confidence :
  let c q := {| Analyzer.cl_chunk_id := None; Analyzer.cl_label := None;
                Analyzer.cl_score := Some q; Analyzer.cl_text := [] |} in
  Analyzer.run (Analyzer.analyze_requirement (Inputs.loads_only Inputs.reply Inputs.one_covered)
                  Inputs.args_name Inputs.args_desc Inputs.controls3
                  [c (5404319552844595 # 36028797018963968); c (3152519739159347 # 9007199254740992)])
               Inputs.reply
  = Analyzer.Verdict (Inputs.verdict_of (Analyzer.run (Analyzer.analyze_requirement
      (Inputs.loads_only Inputs.reply Inputs.one_covered) Inputs.args_name Inputs.args_desc
      Inputs.controls3
      [c (5404319552844595 # 36028797018963968); c (3152519739159347 # 9007199254740992)])
      Inputs.reply)) /\
  Json.dget (Py.s "confidence") (Inputs.verdict_of (Analyzer.run (Analyzer.analyze_requirement
      (Inputs.loads_only Inputs.reply Inputs.one_covered) Inputs.args_name Inputs.args_desc
      Inputs.controls3
      [c (5404319552844595 # 36028797018963968); c (3152519739159347 # 9007199254740992)])
      Inputs.reply)) = Some (Json.JInt 50).
Proof. vm_compute. split; reflexivity. Qed.

Example ch1 : map Chunker.ctext (Chunker.chunk_text Chunker.three_paras 8 1 1)
              = [Py.s "aaaa"; Py.s "bbbb"; Py.s "cccc"].
Proof. vm_compute. reflexivity. Qed.
Example ch2 : map Chunker.ctext (Chunker.chunk_text Chunker.three_paras 3000 1 1)
              = [Chunker.three_paras].
Proof. vm_compute. reflexivity. Qed.
Example ch3 : map (fun c => (Chunker.heading c, Chunker.bstart c, Chunker.bend c))
   (Chunker.split_into_section_blocks (Py.s "Section 1 Intro" ++ [Py.nl] ++ Py.s "text" ++ [Py.nl] ++ Py.s "2.1: Scope" ++ [Py.nl] ++ Py.s "more"))
   = [(Some (Py.s "Section 1"), 0%nat, 21%nat); (Some (Py.s "2.1:"), 21%nat, 36%nat)].
Proof. vm_compute. reflexivity. Qed.

(** ** Lemmas on the JSON dicts and the scoring steps *)
Module Facts.
Import Py Json Analyzer.
Local Open Scope Z_scope.

Lemma str_eqb_refl (a : str) : str_eqb a a = true.
Proof. unfold str_eqb; destruct (list_eq_dec ascii_dec a a); congruence. Qed.

Lemma str_eqb_true (a b : str) : str_eqb a b = true -> a = b.
Proof. unfold str_eqb; destruct (list_eq_dec ascii_dec a b); congruence. Qed.

Lemma dget_dset_same (k : str) (v : json) (d : dict) : dget k (dset k v d) = Some v.
Proof.
  induction d as [|[k' v'] r IH]; simpl.
  - rewrite str_eqb_refl; reflexivity.
  - destruct (str_eqb k k') eqn:E; simpl; rewrite ?E; auto.
Qed.

Lemma dget_dset_other (k1 k2 : str) (v : json) (d : dict) :
  str_eqb k1 k2 = false -> dget k1 (dset k2 v d) = dget k1 d.
Proof.
  intros Hne; induction d as [|[k' v'] r IH]; simpl.
  - rewrite Hne; reflexivity.
  - destruct (str_eqb k2 k') eqn:E; simpl.
    + apply str_eqb_true in E; subst k'; rewrite Hne; reflexivity.
    + destruct (str_eqb k1 k'); auto.
Qed.

Lemma dget_dpop_other (k1 k2 : str) (d : dict) :
  str_eqb k1 k2 = false -> dget k1 (dpop k2 d) = dget k1 d.
Proof.
  intros Hne; induction d as [|[k' v'] r IH]; simpl; auto.
  destruct (str_eqb k2 k') eqn:E; simpl.
  - apply str_eqb_true in E; subst k'; rewrite Hne; reflexivity.
  - destruct (str_eqb k1 k'); auto.
Qed.

Ltac keys_differ := vm_compute; reflexivity.

(** The three keys written last, read back from a verdict. *)
Lemma final_fields (conf st : json) (cs : list json) (d : dict) :
  let d' := dset (s "confidence") conf (dset (s "status") st (dset (s "controls") (JArr cs) d)) in
  controls_of d' = cs /\ dget (s "status") d' = Some st /\ dget (s "confidence") d' = Some conf.
Proof.
  cbv zeta; unfold controls_of; repeat split.
  - rewrite dget_dset_other by keys_differ; rewrite dget_dset_other by keys_differ.
    rewrite dget_dset_same; reflexivity.
  - rewrite dget_dset_other by keys_differ; apply dget_dset_same.
  - apply dget_dset_same.
Qed.

(** Shape of a verdict of the evidence branch. *)
Lemma postprocess_inv (controls : list str) (clauses : list clause) (data : json) (d : dict) :
  postprocess controls clauses data = Verdict d ->
  exists d0 cs' cov q,
    data = JObj d0 /\
    repair_all (controls_list (ensure_controls controls (dpop (s "confidence") d0))) = Some cs' /\
    covered_count cs' = Some cov /\ evidence_quotes cs' = Some q /\
    let total := if Z.of_nat (List.length cs') =? 0 then Z.of_nat (List.length controls)
                 else Z.of_nat (List.length cs') in
    d = dset (s "confidence")
          (JInt (confidence_of (Z.of_nat (List.length controls)) cov q (avg_score clauses)
                               (status_of total cov)))
          (dset (s "status") (JStr (status_of total cov))
             (dset (s "controls") (JArr cs')
                (ensure_controls controls (dpop (s "confidence") d0)))).
Proof.
  unfold postprocess; intros H.
  destruct data as [| | | | | |d0]; try discriminate.
  destruct (repair_all _) as [cs'|] eqn:Hr; try discriminate.
  destruct (covered_count cs') as [cov|] eqn:Hc; try discriminate.
  destruct (evidence_quotes cs') as [q|] eqn:Hq; try discriminate.
  injection H as <-.
  exists d0, cs', cov, q; repeat split; auto.
Qed.

(** Shape of every verdict of [analyze_requirement]. *)
Lemma run_analyze_inv json_loads name desc controls clauses content d :
  run (analyze_requirement json_loads name desc controls clauses) content = Verdict d ->
  (clauses = [] /\ d = no_evidence_verdict name controls) \/
  (clauses <> [] /\ exists data, parse_response json_loads (strip content) = Some data /\
                                 postprocess controls clauses data = Verdict d).
Proof.
  unfold analyze_requirement; destruct clauses as [|c cl].
  - simpl; intros H; injection H as <-; left; auto.
  - simpl; destruct (parse_response json_loads (strip content)) as [data|] eqn:Hp;
      simpl; intros H; try discriminate.
    right; split; [discriminate | eauto].
Qed.

Lemma covered_count_bounds (cs : list json) (n : Z) :
  covered_count cs = Some n -> 0 <= n <= Z.of_nat (List.length cs).
Proof.
  revert n; induction cs as [|c r IH]; simpl; intros n H.
  - injection H as <-; lia.
  - destruct c; try discriminate.
    destruct (covered_count r) as [m|]; try discriminate.
    injection H as <-; specialize (IH m eq_refl).
    destruct (is_True _); lia.
Qed.

Lemma py_len_nonneg (j : json) (l : Z) : py_len j = Some l -> 0 <= l.
Proof. destruct j; simpl; intros H; try discriminate; injection H as <-; lia. Qed.

Lemma evidence_quotes_nonneg (cs : list json) (q : Z) :
  evidence_quotes cs = Some q -> 0 <= q.
Proof.
  revert q; induction cs as [|c r IH]; simpl; intros q H.
  - injection H as <-; lia.
  - destruct c; try discriminate.
    destruct (py_len _) as [l|] eqn:Hl; try discriminate.
    destruct (evidence_quotes r) as [m|]; try discriminate.
    injection H as <-; apply py_len_nonneg in Hl; specialize (IH m eq_refl); lia.
Qed.

Lemma confidence_of_range n cov q avg st :
  0 <= q ->
  let c := confidence_of n cov q avg st in
  (q = 0 -> c = 20) /\ (q <> 0 -> 30 <= c <= 95).
Proof.
  intros Hq; cbv zeta; unfold confidence_of; split; intros H.
  - rewrite (proj2 (Z.eqb_eq q 0) H); reflexivity.
  - rewrite (proj2 (Z.eqb_neq q 0) H); unfold MIN_CONF, MAX_CONF; lia.
Qed.

Lemma evidence_quotes_fresh (controls : list str) :
  evidence_quotes (map fresh_ctrl controls) = Some 0.
Proof. induction controls as [|c r IH]; simpl; [reflexivity | rewrite IH; reflexivity]. Qed.

Lemma covered_count_fresh (controls : list str) :
  covered_count (map fresh_ctrl controls) = Some 0.
Proof. induction controls as [|c r IH]; simpl; [reflexivity | rewrite IH; reflexivity]. Qed.

Lemma repair_all_fresh (controls : list str) :
  repair_all (map fresh_ctrl controls) = Some (map fresh_ctrl controls).
Proof. induction controls as [|c r IH]; simpl; [reflexivity | rewrite IH; reflexivity]. Qed.

End Facts.

Example an1 : exists d,
  Analyzer.run (Analyzer.analyze_requirement (Inputs.loads_only Inputs.reply Inputs.one_covered)
                  (Py.s "Data protection") (Py.s "desc") Inputs.controls3 [Inputs.clause1])
               Inputs.reply = Analyzer.Verdict d /\
  Json.dget (Py.s "confidence") d = Some (Json.JInt 55) /\
  Json.dget (Py.s "status") d = Some (Json.JStr Analyzer.FULLY).
Proof. eexists; split; [vm_compute; reflexivity | vm_compute; split; reflexivity]. Qed.

Module Facts2.
Import Py Json Analyzer Facts.
Local Open Scope Z_scope.
Local Arguments get_d : simpl never.
Local Arguments s : simpl never.

Lemma run_analyze_cons json_loads name desc controls c cl content :
  run (analyze_requirement json_loads name desc controls (c :: cl)) content =
  match parse_response json_loads (strip content) with
  | Some data => postprocess controls (c :: cl) data
  | None => Raises
  end.
Proof. simpl; destruct (parse_response json_loads (strip content)); reflexivity. Qed.

Lemma status_of_full total : 0 < total -> status_of total total = FULLY.
Proof.
  intros H; unfold status_of.
  replace (total >? 0) with true by (symmetry; apply Z.gtb_lt; lia).
  rewrite Z.eqb_refl; reflexivity.
Qed.

Lemma status_of_zero total : status_of total 0 = NONC.
Proof.
  unfold status_of.
  destruct (total >? 0) eqn:E1, (0 =? total) eqn:E2; simpl; auto.
  apply Z.gtb_lt in E1; apply Z.eqb_eq in E2; lia.
Qed.

Lemma status_of_partial total cov : 0 < cov < total -> status_of total cov = PARTIAL.
Proof.
  intros H; unfold status_of.
  replace (cov =? total) with false by (symmetry; apply Z.eqb_neq; lia).
  replace (cov =? 0) with false by (symmetry; apply Z.eqb_neq; lia).
  rewrite andb_false_r; reflexivity.
Qed.

Lemma ensure_controls_list controls d1 l :
  dget (s "controls") d1 = Some (JArr l) -> ensure_controls controls d1 = d1.
Proof. unfold ensure_controls; intros ->; reflexivity. Qed.

Lemma ensure_controls_nonlist controls d1 :
  (forall l, dget (s "controls") d1 <> Some (JArr l)) ->
  ensure_controls controls d1 = dset (s "controls") (JArr (map fresh_ctrl controls)) d1.
Proof.
  unfold ensure_controls; intros H.
  destruct (dget (s "controls") d1) as [[| | | | |l|]|] eqn:E; auto.
  exfalso; exact (H l eq_refl).
Qed.

Lemma controls_list_get d l :
  dget (s "controls") d = Some (JArr l) -> controls_list d = l.
Proof. unfold controls_list, get_d; intros ->; reflexivity. Qed.

Lemma repair_all_length cs cs' :
  repair_all cs = Some cs' -> List.length cs' = List.length cs.
Proof.
  revert cs'; induction cs as [|c r IH]; simpl; intros cs' H.
  - injection H as <-; reflexivity.
  - destruct (repair_ctrl c), (repair_all r) as [r'|] eqn:E; try discriminate.
    injection H as <-; simpl; rewrite (IH r' eq_refl); reflexivity.
Qed.

Lemma repair_all_nth cs cs' i c :
  repair_all cs = Some cs' -> nth_error cs i = Some c ->
  exists c', repair_ctrl c = Some c' /\ nth_error cs' i = Some c'.
Proof.
  revert cs' i; induction cs as [|c0 r IH]; simpl; intros cs' i H Hi.
  - destruct i; discriminate.
  - destruct (repair_ctrl c0) as [c0'|] eqn:E0, (repair_all r) as [r'|]; try discriminate.
    injection H as <-.
    destruct i as [|i]; simpl in *.
    + injection Hi as ->; eauto.
    + eapply IH; eauto.
Qed.

Lemma get_d_dset_same k v dflt d : get_d k dflt (dset k v d) = v.
Proof. unfold get_d; rewrite dget_dset_same; reflexivity. Qed.

Lemma is_True_falsy j : truthy j = false -> is_True j = false.
Proof. destruct j as [|[]| | | | |]; simpl; auto. Qed.

(** A control counts toward coverage exactly when it says [covered: true]
    and has evidence. *)
Lemma covered_count_repair cs cs' :
  repair_all cs = Some cs' ->
  covered_count cs' =
  Some (Z.of_nat (List.length (filter (fun c => match c with
                                               | JObj kv => is_True (get_d (s "covered") JNull kv)
                                                            && truthy (get_d (s "evidence") JNull kv)
                                               | _ => false end) cs))).
Proof.
  revert cs'; induction cs as [|c r IH]; simpl; intros cs' H.
  - injection H as <-; reflexivity.
  - destruct (repair_ctrl c) as [c'|] eqn:Ec, (repair_all r) as [r'|]; try discriminate.
    injection H as <-; simpl.
    destruct c as [| | | | | |kv]; try discriminate.
    unfold repair_ctrl in Ec.
    destruct (truthy (get_d (s "covered") JNull kv)) eqn:Ecov,
             (truthy (get_d (s "evidence") JNull kv)) eqn:Eev; simpl in Ec;
      injection Ec as <-; simpl; rewrite (IH r' eq_refl).
    + rewrite andb_true_r.
      destruct (is_True _); cbv beta iota;
        [cbn [List.length]; rewrite Nat2Z.inj_succ; f_equal; lia | reflexivity].
    + rewrite andb_false_r, get_d_dset_same; reflexivity.
    + rewrite (is_True_falsy _ Ecov); reflexivity.
    + rewrite (is_True_falsy _ Ecov); reflexivity.
Qed.


(** What a verdict of the evidence branch holds, field by field. *)
Lemma postprocess_fields (controls : list str) (clauses : list clause) (data : json) (d : dict) :
  postprocess controls clauses data = Verdict d ->
  exists d0 cs' cov q,
    data = JObj d0 /\
    repair_all (controls_list (ensure_controls controls (dpop (s "confidence") d0))) = Some cs' /\
    covered_count cs' = Some cov /\ evidence_quotes cs' = Some q /\
    controls_of d = cs' /\
    let total := if Z.of_nat (List.length cs') =? 0 then Z.of_nat (List.length controls)
                 else Z.of_nat (List.length cs') in
    dget (s "status") d = Some (JStr (status_of total cov)) /\
    dget (s "confidence") d =
      Some (JInt (confidence_of (Z.of_nat (List.length controls)) cov q (avg_score clauses)
                                (status_of total cov))).
Proof.
  intros H; apply postprocess_inv in H.
  destruct H as (d0 & cs' & cov & q & Hd & Hr & Hc & Hq & ->).
  exists d0, cs', cov, q; do 4 (split; [assumption |]).
  apply final_fields.
Qed.

End Facts2.

(** * Claims about [analyze_requirement] *)
Import Py Json Analyzer Facts Facts2.
Local Arguments get_d : simpl never.
Local Arguments s : simpl never.
Local Open Scope Z_scope.

(** C3: with an empty [retrieved_clauses] list, [analyze_requirement] makes
    no call to the model (the program is [Done] at once, whatever decoder is
    used) and returns status Non-Compliant, confidence 20, and every input
    control with [covered] false and empty evidence. *)
Theorem analyze_no_evidence_nonc (json_loads : str -> option json) (name desc : str)
        (controls : list str) :
  exists d,
    analyze_requirement json_loads name desc controls [] = Done (Verdict d) /\
    (forall json_loads', analyze_requirement json_loads' name desc controls [] = Done (Verdict d)) /\
    dget (s "status") d = Some (JStr NONC) /\
    dget (s "confidence") d = Some (JInt 20) /\
    controls_of d = map (fun c => JObj [(s "name", JStr c); (s "covered", JBool false);
                                        (s "evidence", JArr [])]) controls.
Proof.
  exists (no_evidence_verdict name controls); repeat split; reflexivity.
Qed.

(** C4: every verdict has a confidence in [30, 95] or exactly 20, and it is
    20 exactly when the controls of the verdict carry no evidence quote in
    total (the no-evidence branch included). *)
Theorem confidence_range_or_20 (json_loads : str -> option json) (name desc : str)
        (controls : list str) (clauses : list clause) (content : str) (d : dict) :
  run (analyze_requirement json_loads name desc controls clauses) content = Verdict d ->
  exists conf q,
    dget (s "confidence") d = Some (JInt conf) /\
    evidence_quotes (controls_of d) = Some q /\
    (conf = 20 \/ 30 <= conf <= 95) /\
    (conf = 20 <-> q = 0).
Proof.
  intros H; apply run_analyze_inv in H.
  destruct H as [[-> ->] | [_ [data [_ Hp]]]].
  - exists 20, 0; repeat split; auto.
    apply evidence_quotes_fresh.
  - apply postprocess_inv in Hp.
    destruct Hp as (d0 & cs' & cov & q & -> & _ & _ & Hq & ->).
    destruct (final_fields
                (JInt (confidence_of (Z.of_nat (List.length controls)) cov q (avg_score clauses)
                  (status_of (if Z.of_nat (List.length cs') =? 0
                              then Z.of_nat (List.length controls)
                              else Z.of_nat (List.length cs')) cov)))
                (JStr (status_of (if Z.of_nat (List.length cs') =? 0
                                  then Z.of_nat (List.length controls)
                                  else Z.of_nat (List.length cs')) cov))
                cs' (ensure_controls controls (dpop (s "confidence") d0)))
      as (Hc & _ & Hconf).
    eexists; exists q; rewrite Hconf, Hc; split; [reflexivity | split; [exact Hq |]].
    pose proof (evidence_quotes_nonneg _ _ Hq) as Hq0.
    edestruct (confidence_of_range (Z.of_nat (List.length controls)) cov q
                 (avg_score clauses)) as [H0 H1]; [exact Hq0 |].
    destruct (Z.eq_dec q 0) as [E|E].
    + rewrite (H0 E); split; [left; reflexivity | tauto].
    + specialize (H1 E); split; [right; exact H1 | split; intros; lia].
Qed.

(** C6: in the evidence branch the status depends only on the number of
    repaired controls with [covered] true and on the number of controls: with
    a non-empty controls list, all covered gives Fully Compliant, none covered
    Non-Compliant and anything between Partially Compliant, whatever status
    the model reported. *)
Theorem status_from_coverage (json_loads : str -> option json) (name desc : str)
        (controls : list str) (c : clause) (cl : list clause) (content : str) (d : dict) :
  run (analyze_requirement json_loads name desc controls (c :: cl)) content = Verdict d ->
  let cs := controls_of d in
  exists cov,
    covered_count cs = Some cov /\ 0 <= cov <= Z.of_nat (List.length cs) /\
    (cs <> [] ->
       (cov = Z.of_nat (List.length cs) -> dget (s "status") d = Some (JStr FULLY)) /\
       (cov = 0 -> dget (s "status") d = Some (JStr NONC)) /\
       (0 < cov < Z.of_nat (List.length cs) -> dget (s "status") d = Some (JStr PARTIAL))) /\
    (cs = [] -> dget (s "status") d = Some (JStr NONC)).
Proof.
  rewrite run_analyze_cons.
  destruct (parse_response json_loads (strip content)) as [data|]; [|discriminate].
  intros H; apply postprocess_fields in H.
  destruct H as (d0 & cs' & cov & q & _ & _ & Hc & _ & Hcs & Hst & _).
  cbv zeta in *; rewrite Hcs; exists cov.
  pose proof (covered_count_bounds _ _ Hc) as Hb.
  split; [exact Hc | split; [exact Hb | split]].
  - intros Hne.
    assert (Hlen : Z.of_nat (List.length cs') <> 0)
      by (destruct cs'; [congruence | simpl; lia]).
    rewrite (proj2 (Z.eqb_neq _ 0) Hlen) in Hst.
    repeat split; intros Hk; rewrite Hst; f_equal; f_equal.
    + rewrite Hk; apply status_of_full; lia.
    + rewrite Hk; apply status_of_zero.
    + apply status_of_partial; exact Hk.
  - intros ->; simpl in Hc; injection Hc as <-.
    rewrite Hst, status_of_zero; reflexivity.
Qed.

(** C10: when the decoded reply is a dict whose [controls] is missing or not
    a list, [analyze_requirement] returns a verdict whose controls are the
    input controls with [covered] false and empty evidence, with status
    Non-Compliant and confidence 20. *)
Theorem controls_fallback_nonc (json_loads : str -> option json) (name desc : str)
        (controls : list str) (c : clause) (cl : list clause) (content : str) (d0 : dict) :
  parse_response json_loads (strip content) = Some (JObj d0) ->
  (forall l, dget (s "controls") d0 <> Some (JArr l)) ->
  exists d,
    run (analyze_requirement json_loads name desc controls (c :: cl)) content = Verdict d /\
    controls_of d = map fresh_ctrl controls /\
    dget (s "status") d = Some (JStr NONC) /\
    dget (s "confidence") d = Some (JInt 20).
Proof.
  intros Hp Hnl; rewrite run_analyze_cons, Hp.
  assert (Hd1 : forall l, dget (s "controls") (dpop (s "confidence") d0) <> Some (JArr l))
    by (intros l; rewrite dget_dpop_other by keys_differ; apply Hnl).
  unfold postprocess.
  rewrite (ensure_controls_nonlist _ _ Hd1).
  rewrite (controls_list_get _ (map fresh_ctrl controls)) by apply dget_dset_same.
  rewrite repair_all_fresh, covered_count_fresh, evidence_quotes_fresh, status_of_zero.
  eexists; split; [reflexivity |].
  destruct (final_fields (JInt (confidence_of (Z.of_nat (List.length controls)) 0 0
                                  (avg_score (c :: cl)) NONC)) (JStr NONC)
              (map fresh_ctrl controls)
              (dset (s "controls") (JArr (map fresh_ctrl controls)) (dpop (s "confidence") d0)))
    as (Hc & Hs & Hconf).
  split; [exact Hc | split; [exact Hs | rewrite Hconf; reflexivity]].
Qed.

(** Witness for C10: a reply without a [controls] key. *)
Lemma controls_fallback_nonc_witness :
  parse_response (Inputs.loads_only Inputs.reply Inputs.no_controls) (strip Inputs.reply)
    = Some Inputs.no_controls /\
  exists d,
    run (analyze_requirement (Inputs.loads_only Inputs.reply Inputs.no_controls)
           (s "Data protection") (s "desc") Inputs.controls3 [Inputs.clause1]) Inputs.reply
      = Verdict d /\
    controls_of d = map fresh_ctrl Inputs.controls3 /\
    dget (s "status") d = Some (JStr NONC) /\
    dget (s "confidence") d = Some (JInt 20).
Proof.
  split; [vm_compute; reflexivity |].
  apply (controls_fallback_nonc (Inputs.loads_only Inputs.reply Inputs.no_controls)
           (s "Data protection") (s "desc") Inputs.controls3 Inputs.clause1 [] Inputs.reply
           [(s "status", JStr FULLY); (s "confidence", JInt 90)]).
  - vm_compute; reflexivity.
  - intros l; vm_compute; discriminate.
Defined.

(** C5: when the decoded reply lists controls, the verdict keeps them one to
    one; each control with [covered: true] and missing or empty evidence
    comes back with [covered] false; so the covered count, and the status
    computed from it, count only controls that say [covered: true] and carry
    evidence; the confidence too is computed from that repaired count and
    status (and from the evidence quotes of the repaired controls). *)
Theorem covered_without_evidence_flipped (json_loads : str -> option json) (name desc : str)
        (controls : list str) (c : clause) (cl : list clause) (content : str)
        (d0 : dict) (cs0 : list json) (d : dict) :
  parse_response json_loads (strip content) = Some (JObj d0) ->
  dget (s "controls") d0 = Some (JArr cs0) ->
  run (analyze_requirement json_loads name desc controls (c :: cl)) content = Verdict d ->
  List.length (controls_of d) = List.length cs0 /\
  (forall i kv, nth_error cs0 i = Some (JObj kv) ->
     get_d (s "covered") JNull kv = JBool true ->
     (dget (s "evidence") kv = None \/ dget (s "evidence") kv = Some (JArr [])) ->
     exists kv', nth_error (controls_of d) i = Some (JObj kv') /\
                 get_d (s "covered") JNull kv' = JBool false) /\
  let cov := Z.of_nat (List.length
               (filter (fun c => match c with
                                 | JObj kv => is_True (get_d (s "covered") JNull kv)
                                              && truthy (get_d (s "evidence") JNull kv)
                                 | _ => false end) cs0)) in
  let total := if Z.of_nat (List.length cs0) =? 0
               then Z.of_nat (List.length controls)
               else Z.of_nat (List.length cs0) in
  covered_count (controls_of d) = Some cov /\
  dget (s "status") d = Some (JStr (status_of total cov)) /\
  exists q, evidence_quotes (controls_of d) = Some q /\
    dget (s "confidence") d =
      Some (JInt (confidence_of (Z.of_nat (List.length controls)) cov q (avg_score (c :: cl))
                                (status_of total cov))).
Proof.
  intros Hp Hcs H; rewrite run_analyze_cons, Hp in H.
  apply postprocess_fields in H.
  destruct H as (d0' & cs' & cov & q & Hd & Hr & Hc & Hq & Hcs' & Hst & Hconf).
  injection Hd as <-.
  assert (Hd1 : dget (s "controls") (dpop (s "confidence") d0) = Some (JArr cs0))
    by (rewrite dget_dpop_other by keys_differ; exact Hcs).
  rewrite (ensure_controls_list _ _ _ Hd1), (controls_list_get _ _ Hd1) in Hr.
  rewrite Hcs'.
  pose proof (repair_all_length _ _ Hr) as Hlen.
  split; [exact Hlen | split].
  - intros i kv Hi Hcov Hev.
    destruct (repair_all_nth _ _ _ _ Hr Hi) as (c' & Hrc & Hi').
    unfold repair_ctrl in Hrc.
    assert (Hfalsy : truthy (get_d (s "evidence") JNull kv) = false)
      by (unfold get_d; destruct Hev as [-> | ->]; reflexivity).
    rewrite Hcov, Hfalsy in Hrc; simpl in Hrc; injection Hrc as <-.
    eexists; split; [exact Hi' | apply get_d_dset_same].
  - cbv zeta; rewrite (covered_count_repair _ _ Hr) in Hc |- *; split; [reflexivity |].
    injection Hc as <-; cbv zeta in Hst, Hconf; rewrite Hlen in Hst, Hconf.
    split; [exact Hst |].
    exists q; split; [exact Hq | exact Hconf].
Qed.

(** Witness for C5: one supported control, one unsupported, one uncovered. *)
Lemma covered_without_evidence_flipped_witness :
  exists d,
    run (analyze_requirement (Inputs.loads_only Inputs.reply Inputs.one_unsupported)
           (s "Data protection") (s "desc") Inputs.controls3 [Inputs.clause1]) Inputs.reply
      = Verdict d /\
    parse_response (Inputs.loads_only Inputs.reply Inputs.one_unsupported) (strip Inputs.reply)
      = Some Inputs.one_unsupported /\
    dget (s "status") d = Some (JStr PARTIAL) /\
    List.length (controls_of d) = 3%nat.
Proof.
  exists (match run (analyze_requirement (Inputs.loads_only Inputs.reply Inputs.one_unsupported)
           (s "Data protection") (s "desc") Inputs.controls3 [Inputs.clause1]) Inputs.reply with
          | Verdict d => d | Raises => [] end).
  split; [vm_compute; reflexivity |].
  split; [vm_compute; reflexivity |].
  destruct (covered_without_evidence_flipped (Inputs.loads_only Inputs.reply Inputs.one_unsupported)
              (s "Data protection") (s "desc") Inputs.controls3 Inputs.clause1 [] Inputs.reply
              (match Inputs.one_unsupported with JObj kv => kv | _ => [] end)
              [Inputs.ctrl "Encryption" true ["encrypts data at rest"%string];
               Inputs.ctrl "Access control" true []; Inputs.ctrl "Logging" false []]
              (match run (analyze_requirement (Inputs.loads_only Inputs.reply Inputs.one_unsupported)
                 (s "Data protection") (s "desc") Inputs.controls3 [Inputs.clause1]) Inputs.reply with
               | Verdict d => d | Raises => [] end))
    as (Hlen & _ & _ & Hst & _).
  - vm_compute; reflexivity.
  - vm_compute; reflexivity.
  - vm_compute; reflexivity.
  - split; [rewrite Hst; vm_compute; reflexivity | rewrite Hlen; reflexivity].
Defined.




(** Witness for C4: the one-covered-control reply. *)
Lemma confidence_range_or_20_witness :
  let jl := Inputs.loads_only Inputs.reply Inputs.one_covered in
  let o := run (analyze_requirement jl Inputs.args_name Inputs.args_desc Inputs.controls3
                  [Inputs.clause1]) Inputs.reply in
  o = Verdict (Inputs.verdict_of o) /\
  exists conf q,
    dget (s "confidence") (Inputs.verdict_of o) = Some (JInt conf) /\
    evidence_quotes (controls_of (Inputs.verdict_of o)) = Some q /\
    (conf = 20 \/ 30 <= conf <= 95) /\ (conf = 20 <-> q = 0).
Proof.
  cbv zeta; split; [vm_compute; reflexivity |].
  apply (confidence_range_or_20 (Inputs.loads_only Inputs.reply Inputs.one_covered)
           Inputs.args_name Inputs.args_desc Inputs.controls3 [Inputs.clause1] Inputs.reply).
  vm_compute; reflexivity.
Defined.

(** Witness for C6: the reply with one unsupported control. *)
Lemma status_from_coverage_witness :
  let jl := Inputs.loads_only Inputs.reply Inputs.one_unsupported in
  let o := run (analyze_requirement jl Inputs.args_name Inputs.args_desc Inputs.controls3
                  [Inputs.clause1]) Inputs.reply in
  o = Verdict (Inputs.verdict_of o) /\
  let cs := controls_of (Inputs.verdict_of o) in
  exists cov,
    covered_count cs = Some cov /\ 0 <= cov <= Z.of_nat (List.length cs) /\
    (cs <> [] ->
       (cov = Z.of_nat (List.length cs) -> dget (s "status") (Inputs.verdict_of o) = Some (JStr FULLY)) /\
       (cov = 0 -> dget (s "status") (Inputs.verdict_of o) = Some (JStr NONC)) /\
       (0 < cov < Z.of_nat (List.length cs) ->
          dget (s "status") (Inputs.verdict_of o) = Some (JStr PARTIAL))) /\
    (cs = [] -> dget (s "status") (Inputs.verdict_of o) = Some (JStr NONC)).
Proof.
  cbv zeta; split; [vm_compute; reflexivity |].
  apply (status_from_coverage (Inputs.loads_only Inputs.reply Inputs.one_unsupported)
           Inputs.args_name Inputs.args_desc Inputs.controls3 Inputs.clause1 [] Inputs.reply).
  vm_compute; reflexivity.
Defined.

(** * Claims about [chunk_text] and [find_section_label] *)
Module ChunkFacts.
Import Chunker.

Lemma flush_clears_buf heading min_chars e st :
  buf st <> [] -> buf (flush heading min_chars e st) = [].
Proof. unfold flush; destruct (buf st); [congruence | reflexivity]. Qed.

Lemma py_tail_nil {A} (n : Z) : @py_tail A n [] = [].
Proof. reflexivity. Qed.

End ChunkFacts.

Import Chunker ChunkFacts.

(** C2 (defect): after a flush forced by size overflow the new buffer holds
    the incoming paragraph alone: [flush] empties [buf] (it is [nonlocal])
    before [buf[-overlap_paragraphs:]] reads it, so no paragraph is carried
    over.  On three 4-character paragraphs with [max_chars = 8],
    [min_chars = 1] and [overlap_paragraphs = 1] the chunks share nothing. *)
Theorem overflow_flush_keeps_no_overlap :
  (forall heading block_start max_chars min_chars overlap_paragraphs st running p,
     buf st <> [] -> max_chars < buf_len st + (zlen p + 2) ->
     buf (fst (para_step heading block_start max_chars min_chars overlap_paragraphs
                         (st, running) p)) = [p]) /\
  map ctext (chunk_text three_paras 8 1 1) = [s "aaaa"; s "bbbb"; s "cccc"].
Proof.
  split.
  - intros heading block_start max_chars min_chars overlap_paragraphs st running p Hne Hov.
    unfold para_step; cbn [fst].
    destruct (buf st) as [|b0 bs] eqn:Eb; [congruence |].
    replace (buf_len st + (zlen p + 2) <=? max_chars) with false
      by (symmetry; apply Z.leb_gt; lia).
    cbn [buf]; rewrite (flush_clears_buf _ _ _ st) by (rewrite Eb; discriminate).
    destruct (0 <? overlap_paragraphs); reflexivity.
  - vm_compute; reflexivity.
Qed.

(** C9: [max_chars] does not bound a chunk: a paragraph that meets an empty
    buffer is taken whatever its length (a 10-character paragraph becomes a
    10-character chunk under [max_chars = 5]); [max_chars] only decides
    whether a paragraph is appended to a non-empty buffer. *)
Theorem chunk_may_exceed_max_chars :
  (exists text max_chars min_chars overlap_paragraphs ch,
     In ch (chunk_text text max_chars min_chars overlap_paragraphs) /\
     max_chars < zlen (ctext ch)) /\
  (forall heading block_start max_chars min_chars overlap_paragraphs st running p,
     buf st = [] ->
     buf (fst (para_step heading block_start max_chars min_chars overlap_paragraphs
                         (st, running) p)) = [p]) /\
  (forall heading block_start max_chars min_chars overlap_paragraphs st running p,
     buf st <> [] -> buf_len st + (zlen p + 2) <= max_chars ->
     buf (fst (para_step heading block_start max_chars min_chars overlap_paragraphs
                         (st, running) p)) = buf st ++ [p]).
Proof.
  split; [| split].
  - exists (s "aaaaaaaaaa"), 5, 1, 1.
    eexists; split; [vm_compute; left; reflexivity | vm_compute; reflexivity].
  - intros heading block_start max_chars min_chars overlap_paragraphs st running p He.
    unfold para_step; cbn [fst]; rewrite He; reflexivity.
  - intros heading block_start max_chars min_chars overlap_paragraphs st running p Hne Hle.
    unfold para_step; cbn [fst].
    destruct (buf st) as [|b0 bs] eqn:Eb; [congruence |].
    replace (buf_len st + (zlen p + 2) <=? max_chars) with true
      by (symmetry; apply Z.leb_le; lia).
    reflexivity.
Qed.

Module ReFacts.
Import Re.

(** [search] tries every start position: a match at any [i] is found, at
    [i] or earlier. *)
Lemma search_from_finds r x j fuel i res :
  (j <= i)%nat -> (i - j < fuel)%nat -> match_at r x i = Some res ->
  exists mt, search_from r x j fuel = Some mt /\ (mstart mt <= i)%nat.
Proof.
  revert j; induction fuel as [|fuel IH]; intros j Hji Hf Hm; [lia |].
  simpl; destruct (match_at r x j) as [[e c]|] eqn:Ej.
  - eexists; split; [reflexivity | simpl; exact Hji].
  - destruct (Nat.eq_dec j i) as [->|Hne]; [congruence |].
    apply IH; [lia | lia | exact Hm].
Qed.

Lemma search_finds r x i res :
  (i <= List.length x)%nat -> match_at r x i = Some res ->
  exists mt, search r x = Some mt /\ (mstart mt <= i)%nat.
Proof. intros Hi Hm; unfold search; apply (search_from_finds _ _ _ _ _ res); [lia | lia | exact Hm]. Qed.

End ReFacts.

Import Re SectionTagger ReFacts.

(** C7: [find_section_label] tries the Section pattern over the whole text
    first, then the Exhibit pattern, then the line-leading number; a Section
    match anywhere wins over any Exhibit or numbered line; no match of the
    three gives [None]. *)
Theorem section_label_priority :
  (forall text i res, (i <= List.length text)%nat -> match_at SECTION_RE text i = Some res ->
     exists mt, search SECTION_RE text = Some mt) /\
  (forall text mt, search SECTION_RE text = Some mt ->
     find_section_label text = Some (s "Section " ++ group text mt 1)) /\
  (forall text mt, search SECTION_RE text = None -> search EXHIBIT_RE text = Some mt ->
     find_section_label text = Some (s "Exhibit " ++ upper (group text mt 1))) /\
  (forall text mt, search SECTION_RE text = None -> search EXHIBIT_RE text = None ->
     search PLAIN_NUM_RE text = Some mt ->
     find_section_label text = Some (s "Section " ++ group text mt 1)) /\
  (forall text, search SECTION_RE text = None -> search EXHIBIT_RE text = None ->
     search PLAIN_NUM_RE text = None -> find_section_label text = None) /\
  search EXHIBIT_RE (s "See Section 4.2 and Exhibit A for details") <> None /\
  find_section_label (s "See Section 4.2 and Exhibit A for details") = Some (s "Section 4.2") /\
  find_section_label (s "no headings here") = None.
Proof.
  unfold find_section_label.
  split; [| split; [| split; [| split; [| split; [| split]]]]].
  - intros text i res Hi Hm; destruct (search_finds _ _ _ _ Hi Hm) as [mt [H _]]; eauto.
  - intros text mt ->; reflexivity.
  - intros text mt -> ->; reflexivity.
  - intros text mt -> -> ->; reflexivity.
  - intros text -> -> ->; reflexivity.
  - vm_compute; discriminate.
  - split; vm_compute; reflexivity.
Qed.

(** * Claim about [retrieve_clauses] *)
Module RetrFacts.
Import Py Analyzer Retriever.

Lemma insert_desc_in x l y : In y (insert_desc x l) <-> x = y \/ In y l.
Proof.
  induction l as [|z r IH]; simpl; [tauto |].
  destruct (negb (Qle_bool (snd z) (snd x))); simpl; rewrite ?IH; tauto.
Qed.

Lemma sort_desc_in l y : In y (sort_desc l) <-> In y l.
Proof.
  induction l as [|x r IH]; simpl; [tauto |].
  rewrite insert_desc_in, IH; tauto.
Qed.

Lemma insert_desc_sorted x l :
  StronglySorted desc_pair l -> StronglySorted desc_pair (insert_desc x l).
Proof.
  induction l as [|z r IH]; simpl; intros H.
  - repeat constructor.
  - inversion H as [|? ? Hr Hall]; subst.
    destruct (Qle_bool (snd z) (snd x)) eqn:E; simpl.
    + apply Qle_bool_iff in E.
      constructor; [exact H | constructor; [exact E |]].
      rewrite Forall_forall in Hall |- *; intros w Hw.
      unfold desc_pair in *; eapply Qle_trans; [apply Hall; exact Hw | exact E].
    + assert (Hlt : (snd x < snd z)%Q)
        by (apply Qnot_le_lt; intros C; apply Qle_bool_iff in C; congruence).
      constructor; [apply IH; exact Hr |].
      rewrite Forall_forall in Hall |- *; intros w Hw.
      apply insert_desc_in in Hw; destruct Hw as [<- | Hw];
        [unfold desc_pair; apply Qlt_le_weak; exact Hlt | apply Hall; exact Hw].
Qed.

Lemma sort_desc_sorted l : StronglySorted desc_pair (sort_desc l).
Proof.
  induction l as [|x r IH]; simpl; [constructor | apply insert_desc_sorted; exact IH].
Qed.

Lemma firstn_sorted {A} (R : A -> A -> Prop) n l :
  StronglySorted R l -> StronglySorted R (firstn n l).
Proof.
  revert n; induction l as [|x r IH]; intros [|n] H; simpl; try solve [constructor].
  inversion H as [|? ? Hr Hall]; subst.
  constructor; [apply IH; exact Hr |].
  rewrite Forall_forall in Hall |- *; intros w Hw; apply Hall.
  rewrite <- (firstn_skipn n r); apply in_or_app; left; exact Hw.
Qed.

Lemma filter_sorted {A} (R : A -> A -> Prop) (p : A -> bool) l :
  StronglySorted R l -> StronglySorted R (filter p l).
Proof.
  induction l as [|x r IH]; simpl; intros H; [constructor |].
  inversion H as [|? ? Hr Hall]; subst.
  destruct (p x); [constructor |]; auto.
  rewrite Forall_forall in Hall |- *; intros w Hw; apply filter_In in Hw; apply Hall; tauto.
Qed.

Lemma insert_desc_perm x l : Permutation (insert_desc x l) (x :: l).
Proof.
  induction l as [|y r IH]; simpl; [reflexivity |].
  destruct (negb _); [| reflexivity].
  rewrite IH; apply perm_swap.
Qed.

Lemma sort_desc_perm l : Permutation (sort_desc l) l.
Proof.
  induction l as [|x r IH]; simpl; [reflexivity |].
  rewrite insert_desc_perm, IH; reflexivity.
Qed.

(** The descending sort is a top-[k] selection of the kind faiss makes. *)
Lemma sort_rank_ok : rank_ok sort_rank.
Proof.
  intros k l; exists (sort_desc l).
  split; [apply sort_desc_perm | split; [apply sort_desc_sorted | reflexivity]].
Qed.

Lemma in_firstn_of {A} n (l : list A) a : In a (firstn n l) -> In a l.
Proof. intros H; rewrite <- (firstn_skipn n l); apply in_or_app; left; exact H. Qed.

Lemma NoDup_firstn_of {A} (n : nat) (l : list A) : NoDup l -> NoDup (firstn n l).
Proof.
  revert n; induction l as [|x r IH]; intros [|n] H; simpl; try constructor.
  - inversion H as [|? ? Hx Hr]; subst.
    intros Hin; apply Hx; exact (in_firstn_of _ _ _ Hin).
  - inversion H; subst; apply IH; assumption.
Qed.

Lemma map_fst_combine {A B} (a : list A) (b : list B) :
  List.length a = List.length b -> map fst (combine a b) = a.
Proof.
  revert b; induction a as [|x r IH]; intros [|y b] H; simpl in *; try discriminate; auto.
  rewrite IH by lia; reflexivity.
Qed.

Lemma combine_in_seq {A} (f : A -> Q) (l : list A) (s0 : nat) (i : Z) (sc : Q) :
  In (i, sc) (combine (map Z.of_nat (seq s0 (List.length l))) (map f l)) ->
  exists j v, i = Z.of_nat (s0 + j) /\ nth_error l j = Some v /\ sc = f v.
Proof.
  revert s0; induction l as [|v r IH]; intros s0 H; simpl in H; [contradiction |].
  destruct H as [H | H].
  - injection H as <- <-; exists 0%nat, v; split; [f_equal; lia | split; reflexivity].
  - destruct (IH (S s0) H) as (j & v' & -> & Hj & ->).
    exists (S j), v'; split; [f_equal; lia | split; [exact Hj | reflexivity]].
Qed.

Lemma filter_all_false {A} (p : A -> bool) l :
  (forall x, In x l -> p x = false) -> filter p l = [].
Proof.
  induction l as [|x r IH]; simpl; intros H; auto.
  rewrite (H x (or_introl eq_refl)); apply IH; auto.
Qed.

Lemma filter_all_true {A} (p : A -> bool) l :
  (forall x, In x l -> p x = true) -> filter p l = l.
Proof.
  induction l as [|x r IH]; simpl; intros H; auto.
  rewrite (H x (or_introl eq_refl)); f_equal; apply IH; auto.
Qed.

(** The id, and the (id, score) row, of a hit. *)
Definition hit_id (h : Z * Q * str * meta) : Z := let '(i, _, _, _) := h in i.
Definition hrow (h : Z * Q * str * meta) : Z * Q := let '(i, sc, _, _) := h in (i, sc).

(** A hit whose text and meta are the ones the store keys under its id. *)
Definition found (st : store) (h : Z * Q * str * meta) : Prop :=
  let '(i, _, t, m) := h in lookup (text_by_id st) i = Some t /\ lookup (meta_by_id st) i = Some m.

Lemma keep_hits_spec st rows hs :
  keep_hits st rows = Some hs ->
  map hrow hs = filter (fun y => negb (fst y =? -1)) rows /\ Forall (found st) hs.
Proof.
  revert hs; induction rows as [|[i sc] r IH]; intros hs H; cbn [keep_hits] in H.
  - injection H as <-; split; constructor.
  - cbn [filter fst]; destruct (i =? -1); cbn [negb].
    + exact (IH _ H).
    + destruct (lookup (text_by_id st) i) as [t|] eqn:Et; [| discriminate].
      destruct (lookup (meta_by_id st) i) as [m|] eqn:Em; [| discriminate].
      destruct (keep_hits st r) as [hs'|]; [| discriminate].
      cbn [option_map] in H; injection H as <-.
      destruct (IH _ eq_refl) as [H1 H2].
      split; [cbn [map hrow]; f_equal; exact H1 |].
      constructor; [split; assumption | exact H2].
Qed.

Lemma keep_hits_some st rows :
  Forall (fun y => fst y = -1 \/
                   (0 <= fst y /\ (Z.to_nat (fst y) < List.length (text_by_id st))%nat /\
                    (Z.to_nat (fst y) < List.length (meta_by_id st))%nat)) rows ->
  exists hs, keep_hits st rows = Some hs.
Proof.
  induction rows as [|[i sc] r IH]; intros H; cbn [keep_hits]; [eauto |].
  inversion H as [|? ? Hy Hr]; subst; destruct (IH Hr) as [hs Hhs].
  destruct (i =? -1) eqn:Ei; [eauto |].
  destruct Hy as [Hy | (H0 & Ht & Hm)]; cbn [fst] in *; [apply Z.eqb_neq in Ei; contradiction |].
  unfold lookup; replace (i <? 0) with false by (symmetry; apply Z.ltb_ge; lia).
  destruct (nth_error (text_by_id st) (Z.to_nat i)) eqn:Et; [| apply nth_error_None in Et; lia].
  destruct (nth_error (meta_by_id st) (Z.to_nat i)) eqn:Em; [| apply nth_error_None in Em; lia].
  rewrite Hhs; eexists; reflexivity.
Qed.

Lemma filter_pad (p : Q) n : filter (fun y => negb (fst y =? -1)) (repeat (-1, p) n) = [].
Proof. induction n as [|n IH]; simpl; auto. Qed.

Lemma sorted_hrow hs : StronglySorted desc_pair (map hrow hs) -> StronglySorted desc_hit hs.
Proof.
  induction hs as [|h r IH]; simpl; intros H; [constructor |].
  inversion H as [|? ? Hr Hall]; subst.
  constructor; [apply IH; exact Hr |].
  rewrite Forall_forall in Hall |- *; intros h' Hh'.
  specialize (Hall (hrow h') (in_map _ _ _ Hh')).
  destruct h as [[[? ?] ?] ?], h' as [[[? ?] ?] ?]; exact Hall.
Qed.

Lemma to_result_sorted hs :
  StronglySorted desc_hit hs -> StronglySorted desc_clause (map to_result hs).
Proof.
  induction hs as [|h r IH]; simpl; intros H; [constructor |].
  inversion H as [|? ? Hr Hall]; subst.
  constructor; [apply IH; exact Hr |].
  rewrite Forall_forall in Hall |- *; intros c Hc.
  apply in_map_iff in Hc; destruct Hc as (h' & <- & Hh').
  destruct h as [[[i sc] t] m], h' as [[[i' sc'] t'] m'].
  exists sc, sc'; repeat split; apply (Hall _ Hh').
Qed.

Section WithRank.
Variable sim : list Q -> list Q -> Q.
Variable pad_score : Q.
Variable rank : nat -> list (Z * Q) -> list (Z * Q).

Lemma scored_row st q y :
  In y (scored sim st q) ->
  exists v, 0 <= fst y /\ nth_error (vecs st) (Z.to_nat (fst y)) = Some v /\ snd y = sim q v.
Proof.
  destruct y as [i sc]; intros H.
  destruct (combine_in_seq _ _ 0 i sc H) as (j & v & -> & Hj & ->).
  exists v; cbn [fst snd]; rewrite Nat2Z.id; split; [lia | split; [exact Hj | reflexivity]].
Qed.

Lemma scored_fst st q : map fst (scored sim st q) = map Z.of_nat (seq 0 (List.length (vecs st))).
Proof. apply map_fst_combine; rewrite !length_map, length_seq; reflexivity. Qed.

Lemma scored_length st q : List.length (scored sim st q) = List.length (vecs st).
Proof. unfold scored; rewrite length_combine, !length_map, length_seq; lia. Qed.

(** faiss asserts [k > 0]. *)
Lemma search_k0 st q : search sim pad_score rank st q 0 = None.
Proof.
  unfold search, index_search; destruct (Nat.eqb (List.length q) (dim st)); reflexivity.
Qed.

Hypothesis Hrank : rank_ok rank.

Lemma search_some st q k hs :
  search sim pad_score rank st q k = Some hs ->
  exists l', Permutation l' (scored sim st q) /\ StronglySorted desc_pair l' /\
             map hrow hs = firstn k l' /\ Forall (found st) hs.
Proof.
  unfold search, index_search.
  destruct (Nat.eqb (List.length q) (dim st) && negb (Nat.eqb k 0)); [| discriminate].
  destruct (Hrank k (scored sim st q)) as (l' & Hp & Hs & ->).
  intros H; apply keep_hits_spec in H; destruct H as [H1 H2].
  exists l'; split; [exact Hp | split; [exact Hs | split; [| exact H2]]].
  rewrite H1, filter_app, filter_pad, app_nil_r.
  apply filter_all_true; intros y Hy.
  apply in_firstn_of, (Permutation_in _ Hp) in Hy.
  destruct (scored_row _ _ _ Hy) as (v & H0 & _).
  apply negb_true_iff, Z.eqb_neq; lia.
Qed.

Lemma search_aligned st q k :
  (0 < k)%nat -> List.length q = dim st -> aligned st ->
  exists hs, search sim pad_score rank st q k = Some hs.
Proof.
  intros Hk Hq [Ht Hm]; unfold search, index_search.
  rewrite Hq, Nat.eqb_refl.
  replace (Nat.eqb k 0) with false by (symmetry; apply Nat.eqb_neq; lia); cbn [andb negb].
  destruct (Hrank k (scored sim st q)) as (l' & Hp & _ & ->).
  apply keep_hits_some, Forall_app; split; rewrite Forall_forall; intros y Hy.
  - right; apply in_firstn_of, (Permutation_in _ Hp) in Hy.
    destruct (scored_row _ _ _ Hy) as (v & H0 & Hv & _).
    assert (Hlt : (Z.to_nat (fst y) < List.length (vecs st))%nat)
      by (apply nth_error_Some; rewrite Hv; discriminate).
    split; [exact H0 | lia].
  - apply repeat_spec in Hy; subst y; left; reflexivity.
Qed.

Lemma search_hits st q k hs :
  search sim pad_score rank st q k = Some hs ->
  List.length hs = Nat.min k (List.length (vecs st)) /\
  StronglySorted desc_hit hs /\
  NoDup (map hit_id hs) /\
  Forall (fun h => let '(i, sc, t, m) := h in
            exists v, 0 <= i /\ nth_error (vecs st) (Z.to_nat i) = Some v /\
                      lookup (text_by_id st) i = Some t /\ lookup (meta_by_id st) i = Some m /\
                      sc = sim q v) hs.
Proof.
  intros H; destruct (search_some _ _ _ _ H) as (l' & Hp & Hs & Hm & Hf).
  split; [| split; [| split]].
  - rewrite <- (length_map hrow), Hm, length_firstn, (Permutation_length Hp), scored_length.
    reflexivity.
  - apply sorted_hrow; rewrite Hm; apply firstn_sorted; exact Hs.
  - replace (map hit_id hs) with (map fst (map hrow hs))
      by (rewrite map_map; apply map_ext; intros [[[? ?] ?] ?]; reflexivity).
    rewrite Hm, <- firstn_map; apply NoDup_firstn_of.
    eapply Permutation_NoDup; [symmetry; apply Permutation_map; exact Hp |].
    rewrite scored_fst; apply NoDup_map_inv with (f := Z.to_nat); rewrite map_map.
    rewrite (map_ext _ (fun x => x)) by (intros; apply Nat2Z.id).
    rewrite map_id; apply seq_NoDup.
  - rewrite Forall_forall in Hf |- *; intros [[[i sc] t] m] Hh.
    destruct (Hf _ Hh) as [Ht Hmt].
    assert (Hy : In (i, sc) (firstn k l')) by (rewrite <- Hm; exact (in_map hrow _ _ Hh)).
    apply in_firstn_of, (Permutation_in _ Hp) in Hy.
    destruct (scored_row _ _ _ Hy) as (v & H0 & Hv & Hsc); cbn [fst snd] in *.
    exists v; auto.
Qed.

End WithRank.

End RetrFacts.

Import Retriever RetrFacts.

(** C8 (as the code has it): [retrieve_clauses] raises when [top_k] is 0
    (faiss asserts [k > 0]).  Whenever it returns, its result is the store's
    hits, in the store's descending-score order, filtered to those scoring
    at least [min_score], and at most [top_k] of them; when every stored
    vector scores below [min_score] against the query, the result is empty.
    With [top_k >= 1], a query embedding of the store's dimension and a
    store holding a text and a meta for every vector, it returns (it is not
    an error), the empty list in that case. *)
Theorem retrieve_filtered_sorted_bounded (embed : str -> list Q) (sim : list Q -> list Q -> Q)
        (pad_score : Q) (rank : nat -> list (Z * Q) -> list (Z * Q)) (Hrank : rank_ok rank)
        (st : store) (name desc : str) (controls : list str) (top_k : nat) (min_score : Q) :
  let q := embed (query_of name desc controls) in
  let r := retrieve_clauses embed sim pad_score rank st name desc controls top_k min_score in
  (forall rs, r = Some rs ->
     (exists hs, search sim pad_score rank st q top_k = Some hs /\
                 rs = filter (passes min_score) (map to_result hs)) /\
     Forall (fun c => exists sc, cl_score c = Some sc /\ (min_score <= sc)%Q) rs /\
     Sorted desc_clause rs /\
     (List.length rs <= top_k)%nat /\
     ((forall v, In v (vecs st) -> (sim q v < min_score)%Q) -> rs = [])) /\
  (top_k = 0%nat -> r = None) /\
  ((0 < top_k)%nat -> List.length q = dim st -> aligned st -> exists rs, r = Some rs).
Proof.
  cbv zeta; unfold retrieve_clauses; cbv zeta.
  split; [| split].
  - intros rs Hr.
    destruct (search sim pad_score rank st (embed (query_of name desc controls)) top_k)
      as [hs|] eqn:Hs; [| discriminate].
    injection Hr as <-.
    destruct (search_hits _ _ _ Hrank _ _ _ _ Hs) as (Hlen & Hsort & _ & Hgood).
    split; [exists hs; split; reflexivity | split; [| split; [| split]]].
    + rewrite Forall_forall; intros c Hc; apply filter_In in Hc; destruct Hc as [_ Hp].
      unfold passes in Hp; destruct (cl_score c) as [sc|]; [| discriminate].
      exists sc; split; [reflexivity | apply Qle_bool_iff; exact Hp].
    + apply StronglySorted_Sorted, filter_sorted, to_result_sorted, Hsort.
    + eapply Nat.le_trans; [apply filter_length_le |]; rewrite length_map, Hlen; lia.
    + intros Hbelow; apply filter_all_false; intros c Hc.
      apply in_map_iff in Hc; destruct Hc as (h & <- & Hh).
      rewrite Forall_forall in Hgood; specialize (Hgood h Hh).
      destruct h as [[[i sc] t] m]; destruct Hgood as (v & _ & Hv & _ & _ & ->).
      specialize (Hbelow v (nth_error_In _ _ Hv)).
      unfold passes; cbn [to_result cl_score].
      destruct (Qle_bool min_score (sim (embed (query_of name desc controls)) v)) eqn:E;
        [| reflexivity].
      apply Qle_bool_iff in E; exfalso; exact (Qlt_not_le _ _ Hbelow E).
  - intros ->; rewrite search_k0; reflexivity.
  - intros Hk Hq Hal.
    destruct (search_aligned sim pad_score rank Hrank st _ top_k Hk Hq Hal) as (hs & ->).
    eexists; reflexivity.
Qed.

(** Witness for C8: three stored vectors scoring 1/4, 1/2 and 3/4, top_k 2
    and min_score 1/2, with the descending sort as faiss's selection. *)
Lemma retrieve_filtered_sorted_bounded_witness :
  exists rs,
    retrieve_clauses Inputs.embed1 Inputs.sim4 0%Q sort_rank Inputs.store3
      (s "Data protection") (s "desc") [s "Encryption"] 2 (1 # 2) = Some rs /\
    List.length rs = 2%nat /\ Sorted desc_clause rs.
Proof.
  destruct (retrieve_filtered_sorted_bounded Inputs.embed1 Inputs.sim4 0%Q sort_rank sort_rank_ok
              Inputs.store3 (s "Data protection") (s "desc") [s "Encryption"] 2 (1 # 2))
    as (Ha & _ & Hc).
  assert (Hk : (0 < 2)%nat) by lia.
  assert (Hq : List.length (Inputs.embed1 (query_of (s "Data protection") (s "desc") [s "Encryption"]))
               = dim Inputs.store3) by reflexivity.
  assert (Hal : aligned Inputs.store3) by (split; cbn; lia).
  destruct (Hc Hk Hq Hal) as (rs & Hrs).
  exists rs; split; [exact Hrs |].
  destruct (Ha rs Hrs) as (_ & _ & Hsort & _).
  split; [| exact Hsort].
  vm_compute in Hrs; injection Hrs as <-; reflexivity.
Defined.

(** C8 fails at top_k = 0: every stored vector scores below min_score = 1,
    and retrieve_clauses raises (faiss asserts k > 0) instead of returning
    the empty list, whatever faiss's selection. *)
Lemma retrieve_top_k_zero_counterexample :
  (forall v, In v (vecs Inputs.store3) ->
     (Inputs.sim4 (Inputs.embed1 (query_of (s "Data protection") (s "desc") [s "Encryption"])) v
      < 1)%Q) /\
  forall rank, retrieve_clauses Inputs.embed1 Inputs.sim4 0%Q rank Inputs.store3
                 (s "Data protection") (s "desc") [s "Encryption"] 0 1 = None.
Proof.
  split.
  - intros v Hv; cbn [vecs Inputs.store3 In] in Hv.
    destruct Hv as [<- | [<- | [<- | []]]]; vm_compute; reflexivity.
  - intros rank; reflexivity.
Qed.

(** * Further properties of the code *)

(** ** Strings: [strip], slices, [join] *)
Module StrFacts.
Import Py.

Definition all_space (x : str) : Prop := Forall (fun a => is_space a = true) x.

Lemma lstrip_head x : match lstrip x with a :: _ => is_space a = false | [] => True end.
Proof.
  induction x as [|a r IH]; simpl; auto.
  destruct (is_space a) eqn:E; auto.
Qed.

Lemma lstrip_split x : exists p, x = p ++ lstrip x /\ all_space p.
Proof.
  induction x as [|a r IH]; simpl.
  - exists []; split; [reflexivity | constructor].
  - destruct (is_space a) eqn:E.
    + destruct IH as (p & Hp & Hs); exists (a :: p); split; [simpl; congruence | constructor; auto].
    + exists []; split; [reflexivity | constructor].
Qed.

Lemma lstrip_id x : match x with a :: _ => is_space a = false | [] => True end -> lstrip x = x.
Proof. destruct x as [|a r]; simpl; auto; intros ->; reflexivity. Qed.

Lemma lstrip_idem x : lstrip (lstrip x) = lstrip x.
Proof. apply lstrip_id, lstrip_head. Qed.

Lemma lstrip_nil x : lstrip x = [] <-> all_space x.
Proof.
  unfold all_space; induction x as [|a r IH]; simpl.
  - split; auto.
  - destruct (is_space a) eqn:E.
    + rewrite IH; split; [intros H; constructor; auto | intros H; inversion H; auto].
    + split; [discriminate | intros H; inversion H; congruence].
Qed.

Lemma all_space_app x y : all_space (x ++ y) <-> all_space x /\ all_space y.
Proof. unfold all_space; rewrite Forall_app; tauto. Qed.

Lemma all_space_rev x : all_space (rev x) <-> all_space x.
Proof.
  unfold all_space; split; [intros H; apply Forall_rev in H; rewrite rev_involutive in H; exact H
                           | apply Forall_rev].
Qed.

Lemma strip_nil x : strip x = [] <-> all_space x.
Proof.
  unfold strip; split.
  - intros H.
    assert (E : lstrip (rev (lstrip x)) = []).
    { destruct (lstrip (rev (lstrip x))) as [|a r]; [reflexivity |].
      simpl in H; apply app_eq_nil in H; destruct H as [_ H]; discriminate. }
    apply lstrip_nil in E; rewrite all_space_rev in E.
    destruct (lstrip_split x) as (p & Hp & Hs); rewrite Hp; apply all_space_app; split; assumption.
  - intros H; apply lstrip_nil in H; rewrite H; reflexivity.
Qed.

Lemma lstrip_incl x a : In a (lstrip x) -> In a x.
Proof.
  destruct (lstrip_split x) as (p & Hp & _); intros H; rewrite Hp; apply in_or_app; auto.
Qed.

Lemma strip_incl x a : In a (strip x) -> In a x.
Proof.
  unfold strip; intros H; apply in_rev, lstrip_incl, in_rev, lstrip_incl in H; exact H.
Qed.

Lemma lstrip_keeps x a : In a x -> is_space a = false -> In a (lstrip x).
Proof.
  destruct (lstrip_split x) as (p & Hp & Hs); intros H Ha.
  rewrite Hp in H; apply in_app_or in H; destruct H as [H | H]; auto.
  unfold all_space in Hs; rewrite Forall_forall in Hs; rewrite (Hs a H) in Ha; discriminate.
Qed.

Lemma strip_keeps x a : In a x -> is_space a = false -> In a (strip x).
Proof.
  intros H Ha; unfold strip.
  apply in_rev; rewrite rev_involutive; apply lstrip_keeps; auto.
  apply in_rev; rewrite rev_involutive; apply lstrip_keeps; auto.
Qed.

Lemma strip_idem x : strip (strip x) = strip x.
Proof.
  unfold strip.
  set (y := lstrip x); set (z := lstrip (rev y)).
  destruct (lstrip_split (rev y)) as (p & Hp & _); fold z in Hp.
  assert (Hy : y = rev z ++ rev p)
    by (rewrite <- rev_app_distr, <- Hp, rev_involutive; reflexivity).
  assert (Hz : lstrip (rev z) = rev z).
  { apply lstrip_id; pose proof (lstrip_head x) as Hh; fold y in Hh.
    destruct (rev z) as [|a r]; auto; rewrite Hy in Hh; exact Hh. }
  rewrite Hz, rev_involutive; unfold z; rewrite lstrip_idem; reflexivity.
Qed.

(** A string with a non-space character strips to a non-empty string. *)
Lemma strip_nonempty x a : In a x -> is_space a = false -> strip x <> [].
Proof. intros H Ha E; pose proof (strip_keeps _ _ H Ha) as K; rewrite E in K; exact K. Qed.

Lemma stripped_has_nonspace x : x <> [] -> strip x = x -> exists a, In a x /\ is_space a = false.
Proof.
  intros Hne Hs.
  destruct (Forall_Exists_dec (fun a => is_space a = true)
              (fun a => bool_dec (is_space a) true) x) as [Hall | Hex].
  - apply strip_nil in Hall; congruence.
  - apply Exists_exists in Hex; destruct Hex as (a & Ha & Hsp).
    exists a; split; [exact Ha | destruct (is_space a); congruence].
Qed.

Lemma firstn_incl {A} n (l : list A) a : In a (firstn n l) -> In a l.
Proof. intros H; rewrite <- (firstn_skipn n l); apply in_or_app; auto. Qed.

Lemma skipn_incl {A} n (l : list A) a : In a (skipn n l) -> In a l.
Proof. intros H; rewrite <- (firstn_skipn n l); apply in_or_app; auto. Qed.

Lemma slice_incl x i j a : In a (slice x i j) -> In a x.
Proof. unfold slice; intros H; apply firstn_incl, skipn_incl in H; exact H. Qed.

Lemma join_incl sep xs a : In a (join sep xs) -> In a sep \/ exists p, In p xs /\ In a p.
Proof.
  induction xs as [|x r IH]; simpl; [tauto |].
  destruct r as [|y r']; [intros H; right; exists x; simpl; auto |].
  intros H; apply in_app_or in H; destruct H as [H | H]; [right; exists x; simpl; auto |].
  apply in_app_or in H; destruct H as [H | H]; [left; exact H |].
  destruct (IH H) as [H' | (p & Hp & Ha)]; [left; exact H' | right; exists p; simpl in *; tauto].
Qed.

Lemma join_first sep x xs a : In a x -> In a (join sep (x :: xs)).
Proof. destruct xs; simpl; intros H; [exact H | apply in_or_app; auto]. Qed.

End StrFacts.

(** ** [chunk_text]: the invariant of its state *)
Module ChunkInv.
Import Py Re Chunker StrFacts ChunkFacts.
Local Open Scope Z_scope.

Lemma replace_cr_no_cr x : ~ In cr (replace_cr x).
Proof.
  unfold replace_cr; intros H; apply in_map_iff in H; destruct H as (a & Ha & _).
  destruct (Ascii.eqb a cr) eqn:E; [vm_compute in Ha; discriminate |].
  subst a; rewrite Ascii.eqb_refl in E; discriminate.
Qed.

Lemma split_pieces_incl x pos ms p a : In p (split_pieces x pos ms) -> In a p -> In a x.
Proof.
  revert pos; induction ms as [|mt r IH]; simpl; intros pos Hp Ha.
  - destruct Hp as [<- | []]; apply slice_incl in Ha; exact Ha.
  - destruct Hp as [<- | Hp]; [apply slice_incl in Ha; exact Ha | eapply IH; eauto].
Qed.

Lemma split_incl r x p a : In p (split r x) -> In a p -> In a x.
Proof. unfold split; apply split_pieces_incl. Qed.

Definition good_para (p : str) : Prop := p <> [] /\ strip p = p.

Lemma para_split_good text :
  Forall (fun p => good_para p /\ ~ In cr p) (_para_split text).
Proof.
  unfold _para_split; apply Forall_forall; intros p Hp.
  apply in_map_iff in Hp; destruct Hp as (q & <- & Hq); apply filter_In in Hq.
  destruct Hq as [Hq Hf].
  split; [split |].
  - destruct (strip q); [discriminate | congruence].
  - apply strip_idem.
  - intros H; apply strip_incl in H.
    apply (replace_cr_no_cr text); exact (split_incl _ _ _ _ Hq H).
Qed.

Definition chunk_ok (mn : Z) (c : chunk) : Prop :=
  mn <= zlen (ctext c) /\ ctext c <> [] /\ strip (ctext c) = ctext c /\
  0 <= start_char c <= end_char c.

Definition inv (mn : Z) (st : cstate) : Prop :=
  map id (chunks st) = map Z.of_nat (seq 0 (List.length (chunks st))) /\
  chunk_id st = Z.of_nat (List.length (chunks st)) /\
  Forall (chunk_ok mn) (chunks st) /\
  Forall good_para (buf st).

Lemma join_good_nonempty b : b <> [] -> Forall good_para b -> strip (join [nl; nl] b) <> [].
Proof.
  destruct b as [|p r]; [congruence |]; intros _ H.
  inversion H as [|? ? [Hne Hs] _]; subst.
  destruct (stripped_has_nonspace p Hne Hs) as (a & Ha & Hsp).
  apply (strip_nonempty _ a); [apply join_first; exact Ha | exact Hsp].
Qed.

Lemma flush_inv heading mn e st :
  inv mn st -> buf_start_char st <= e -> inv mn (flush heading mn e st).
Proof.
  intros Hinv Hle; pose proof Hinv as (Hids & Hcid & Hok & Hbuf).
  unfold flush.
  destruct (buf st) as [|p r] eqn:Eb; [exact Hinv |].
  assert (Hne : strip (join [nl; nl] (p :: r)) <> [])
    by (apply join_good_nonempty; [discriminate | first [exact Hbuf | rewrite <- Eb; exact Hbuf]]).
  destruct (zlen (strip (join [nl; nl] (p :: r))) >=? mn) eqn:Ez.
  - apply Z.geb_le in Ez.
    unfold inv; cbn [chunks chunk_id buf].
    rewrite length_app, map_app; cbn [List.length map id].
    rewrite seq_app, map_app, Hids, Hcid; cbn [seq map Nat.add].
    split; [reflexivity | split; [lia | split; [| constructor]]].
    apply Forall_app; split; [exact Hok |].
    constructor; [| constructor].
    unfold chunk_ok; cbn [ctext start_char end_char].
    split; [exact Ez | split; [exact Hne | split; [apply strip_idem | lia]]].
  - unfold inv; cbn [chunks chunk_id buf].
    split; [exact Hids | split; [exact Hcid | split; [exact Hok | constructor]]].
Qed.

Lemma para_step_inv heading block_start mx mn ov st running p :
  inv mn st -> buf_start_char st <= running -> good_para p ->
  let r := para_step heading block_start mx mn ov (st, running) p in
  inv mn (fst r) /\ buf_start_char (fst r) <= snd r.
Proof.
  intros Hinv Hle Hp; cbv zeta; unfold para_step; cbn [fst snd].
  assert (Hz : 0 <= zlen p) by (unfold zlen; lia).
  pose proof Hinv as (Hids & Hcid & Hok & Hbuf).
  destruct (buf st) as [|b0 bs] eqn:Eb.
  - unfold inv; cbn [chunks chunk_id buf buf_start_char].
    split; [split; [exact Hids | split; [exact Hcid | split; [exact Hok | constructor; auto]]] | lia].
  - destruct (buf_len st + (zlen p + 2) <=? mx).
    + unfold inv; cbn [chunks chunk_id buf buf_start_char].
      split; [split; [exact Hids | split; [exact Hcid | split; [exact Hok |]]] | lia].
      apply Forall_app; split; [first [exact Hbuf | rewrite <- Eb; exact Hbuf] | constructor; auto].
    + assert (H1 : inv mn (flush heading mn running st)) by (apply flush_inv; auto).
      assert (Hb1 : buf (flush heading mn running st) = [])
        by (apply flush_clears_buf; rewrite Eb; discriminate).
      rewrite Hb1.
      replace (if 0 <? ov then py_tail ov (@nil str) else []) with (@nil str)
        by (destruct (0 <? ov); reflexivity).
      destruct H1 as (H1a & H1b & H1c & _).
      unfold inv; cbn [chunks chunk_id buf buf_start_char app].
      split; [split; [exact H1a | split; [exact H1b | split; [exact H1c | constructor; auto]]] | lia].
Qed.

Lemma fold_para_inv heading block_start mx mn ov ps st running :
  Forall good_para ps -> inv mn st -> buf_start_char st <= running ->
  let r := fold_left (para_step heading block_start mx mn ov) ps (st, running) in
  inv mn (fst r) /\ buf_start_char (fst r) <= snd r.
Proof.
  revert st running; induction ps as [|p ps IH]; intros st running Hps Hinv Hle;
    cbn [fold_left]; [auto |].
  inversion Hps as [|? ? Hp Hps']; subst.
  destruct (para_step_inv heading block_start mx mn ov st running p Hinv Hle Hp) as [H1 H2].
  destruct (para_step heading block_start mx mn ov (st, running) p) as [st' r'].
  apply IH; [exact Hps' | exact H1 | exact H2].
Qed.

Lemma chunk_block_inv mx mn ov st bl : inv mn st -> inv mn (chunk_block mx mn ov st bl).
Proof.
  intros Hinv; unfold chunk_block; cbv zeta.
  pose proof Hinv as (Hids & Hcid & Hok & _).
  assert (Hps : Forall good_para (_para_split (btext bl)))
    by (eapply Forall_impl; [| apply para_split_good]; intros p [H _]; exact H).
  match goal with
  | |- context [fold_left ?f ?ps (?s0, ?r0)] =>
      pose proof (fold_para_inv (heading bl) (Z.of_nat (bstart bl)) mx mn ov ps s0 r0 Hps) as H;
      destruct (fold_left f ps (s0, r0)) as [st1 running]
  end.
  destruct H as [H1 H2]; simpl in *; auto.
  - unfold inv; cbn [chunks chunk_id buf].
    split; [exact Hids | split; [exact Hcid | split; [exact Hok | constructor]]].
  - lia.
  - apply flush_inv; auto.
Qed.

Lemma chunk_blocks_inv mx mn ov bls st :
  inv mn st -> inv mn (fold_left (chunk_block mx mn ov) bls st).
Proof.
  revert st; induction bls as [|bl r IH]; intros st H; simpl; auto.
  apply IH, chunk_block_inv, H.
Qed.

Lemma chunk_text_inv text mx mn ov :
  inv mn (fold_left (chunk_block mx mn ov) (split_into_section_blocks (replace_cr text))
            {| chunks := []; chunk_id := 0; buf := []; buf_len := 0; buf_start_char := 0 |}).
Proof.
  apply chunk_blocks_inv.
  unfold inv; cbn; split; [reflexivity | split; [reflexivity | split; constructor]].
Qed.

End ChunkInv.

(** ** [split_into_section_blocks] *)
Module BlockFacts.
Import Py Re Chunker StrFacts.

Lemma replace_cr_space x : all_space (replace_cr x) <-> all_space x.
Proof.
  assert (Hpt : forall a, is_space (if Ascii.eqb a cr then nl else a) = is_space a).
  { intros a; destruct (Ascii.eqb a cr) eqn:E; [apply Ascii.eqb_eq in E; subst a |]; reflexivity. }
  unfold all_space, replace_cr; rewrite Forall_map.
  split; apply Forall_impl; intros a; rewrite Hpt; auto.
Qed.

Lemma blocks_nil_iff text : split_into_section_blocks text = [] <-> all_space text.
Proof.
  rewrite <- replace_cr_space, <- strip_nil.
  unfold split_into_section_blocks; cbv zeta.
  destruct (strip (replace_cr text)) as [|a l]; [tauto |].
  split; [| discriminate].
  destruct (finditer HEADING_RE (a :: l)) as [|mt ms]; simpl; discriminate.
Qed.

Lemma blocks_of_contig text ms i b b' :
  nth_error (blocks_of text ms) i = Some b -> nth_error (blocks_of text ms) (S i) = Some b' ->
  bend b = bstart b'.
Proof.
  revert i; induction ms as [|mt r IH]; intros i H H'; [destruct i; discriminate |].
  destruct i as [|i].
  - cbn [blocks_of nth_error] in H, H'; injection H as <-.
    destruct r as [|mt' r']; [discriminate |].
    cbn [blocks_of nth_error] in H'; injection H' as <-; reflexivity.
  - apply (IH i); [exact H | exact H'].
Qed.

Lemma blocks_of_last text mt r b :
  nth_error (blocks_of text (mt :: r)) (List.length r) = Some b -> bend b = List.length text.
Proof.
  revert mt; induction r as [|mt' r' IH]; intros mt H.
  - cbn [blocks_of nth_error List.length] in H; injection H as <-; reflexivity.
  - cbn [List.length] in H; cbn [nth_error] in H.
    change (blocks_of text (mt :: mt' :: r')) with
      ({| heading := Some (strip (group text mt 1));
          btext := strip (slice text (mstart mt) (mstart mt'));
          bstart := mstart mt; bend := mstart mt' |} :: blocks_of text (mt' :: r')) in H.
    exact (IH mt' H).
Qed.

Lemma blocks_of_length text ms : List.length (blocks_of text ms) = List.length ms.
Proof. induction ms as [|mt r IH]; simpl; auto. Qed.

Lemma blocks_of_text text ms :
  Forall (fun b => btext b = strip (slice text (bstart b) (bend b))) (blocks_of text ms).
Proof. induction ms as [|mt r IH]; simpl; constructor; auto. Qed.

End BlockFacts.

Import Chunker StrFacts ChunkInv BlockFacts.

(** _para_split: every paragraph it returns is non-empty, already stripped
    (no white space at either end) and free of carriage returns. *)
Theorem para_split_paragraphs_clean (text : str) :
  Forall (fun p => p <> [] /\ strip p = p /\ ~ In cr p) (_para_split text).
Proof.
  eapply Forall_impl; [| apply para_split_good].
  intros p [[H1 H2] H3]; auto.
Qed.

(** split_into_section_blocks gives no block exactly when the text is empty
    or white space only; chunk_text then gives no chunk, whatever its
    parameters. *)
Theorem blank_text_no_blocks_no_chunks (text : str) :
  (split_into_section_blocks text = [] <-> Forall (fun a => is_space a = true) text) /\
  (Forall (fun a => is_space a = true) text ->
   forall max_chars min_chars overlap_paragraphs,
     chunk_text text max_chars min_chars overlap_paragraphs = []).
Proof.
  split; [apply blocks_nil_iff |].
  intros H mx mn ov; unfold chunk_text.
  replace (split_into_section_blocks (replace_cr text)) with (@nil block)
    by (symmetry; apply blocks_nil_iff, replace_cr_space; exact H).
  reflexivity.
Qed.

(** split_into_section_blocks: consecutive blocks are contiguous (each ends
    where the next begins), the last ends at the end of the normalised text,
    each block's text is its span stripped; the first block starts at the
    first heading match, so text before the first heading is in no block;
    without any heading the whole text is one block with no heading. *)
Theorem section_blocks_contiguous (text : str) :
  let t := strip (replace_cr text) in
  let bs := split_into_section_blocks text in
  (forall i b b', nth_error bs i = Some b -> nth_error bs (S i) = Some b' -> bend b = bstart b') /\
  (forall b, nth_error bs (pred (List.length bs)) = Some b -> bend b = List.length t) /\
  Forall (fun b => btext b = strip (slice t (bstart b) (bend b))) bs /\
  (forall mt ms, finditer HEADING_RE t = mt :: ms ->
     exists b, nth_error bs 0 = Some b /\ bstart b = mstart mt /\
               heading b = Some (strip (group t mt 1))) /\
  (t <> [] -> finditer HEADING_RE t = [] ->
     bs = [{| heading := None; btext := t; bstart := 0; bend := List.length t |}]).
Proof.
  cbv zeta; unfold split_into_section_blocks; cbv zeta.
  destruct (strip (replace_cr text)) as [|a l] eqn:Et.
  - split; [intros [|i]; discriminate | split; [intros b; destruct b; discriminate |]].
    split; [constructor | split; [| intros C; congruence]].
    intros mt ms H; vm_compute in H; discriminate.
  - assert (Hid : strip (a :: l) = a :: l) by (rewrite <- Et; apply strip_idem).
    destruct (finditer HEADING_RE (a :: l)) as [|mt ms] eqn:Ef.
    + split; [intros [|i] b b' H H'; [discriminate | destruct i; discriminate] |].
      split; [intros b H; injection H as <-; reflexivity |].
      split; [constructor; [| constructor] |].
      * cbn [btext bstart bend]; unfold slice; rewrite Nat.sub_0_r, skipn_O, firstn_all.
        symmetry; exact Hid.
      * split; [discriminate | intros _ _; reflexivity].
    + split; [intros i b b'; apply blocks_of_contig |].
      split; [rewrite blocks_of_length; cbn [List.length pred]; apply blocks_of_last |].
      split; [apply blocks_of_text |].
      split; [| intros _ C; discriminate].
      intros mt' ms' H; injection H as <- <-.
      eexists; split; [reflexivity | split; reflexivity].
Qed.

(** chunk_text numbers its chunks 0, 1, 2, ... in the order it returns them. *)
Theorem chunk_ids_consecutive (text : str) (max_chars min_chars overlap_paragraphs : Z) :
  let cs := chunk_text text max_chars min_chars overlap_paragraphs in
  map id cs = map Z.of_nat (seq 0 (List.length cs)).
Proof.
  cbv zeta; unfold chunk_text.
  destruct (chunk_text_inv text max_chars min_chars overlap_paragraphs) as (H & _); exact H.
Qed.

(** For an ASCII text (the characters of [str]; [strip] removes the ASCII
    whitespace), every chunk of chunk_text has a text of at least min_chars
    characters that is non-empty (also when min_chars <= 0) and stripped,
    and 0 <= start_char <= end_char. *)
Theorem chunk_fields_well_formed (text : str) (max_chars min_chars overlap_paragraphs : Z) :
  Forall (fun c => (min_chars <= zlen (ctext c))%Z /\ ctext c <> [] /\ strip (ctext c) = ctext c /\
                   (0 <= start_char c <= end_char c)%Z)
         (chunk_text text max_chars min_chars overlap_paragraphs).
Proof.
  unfold chunk_text.
  destruct (chunk_text_inv text max_chars min_chars overlap_paragraphs) as (_ & _ & H & _); exact H.
Qed.

(** ** The reply parsing and post-validation of [analyze_requirement] *)
Module AnFacts.
Import Py Json Analyzer Facts Facts2.
Local Open Scope Z_scope.

Lemma find_from_app (a : ascii) (pre r : str) (i : Z) :
  ~ In a pre -> find_from a (pre ++ a :: r) i = i + Z.of_nat (List.length pre).
Proof.
  revert i; induction pre as [|b pre IH]; intros i Hn; simpl.
  - rewrite Ascii.eqb_refl; lia.
  - destruct (Ascii.eqb a b) eqn:E.
    + apply Ascii.eqb_eq in E; subst b; exfalso; apply Hn; left; reflexivity.
    + rewrite IH by (intros H; apply Hn; right; exact H); lia.
Qed.

Lemma py_find_app (a : ascii) (pre r : str) :
  ~ In a pre -> py_find a (pre ++ a :: r) = Z.of_nat (List.length pre).
Proof. intros H; unfold py_find; rewrite find_from_app by exact H; lia. Qed.

Lemma py_rfind_app (a : ascii) (l post : str) :
  ~ In a post -> py_rfind a (l ++ a :: post) = Z.of_nat (List.length l).
Proof.
  intros H; unfold py_rfind.
  rewrite rev_app_distr; cbn [rev]; rewrite <- app_assoc; cbn [app].
  rewrite find_from_app by (rewrite <- in_rev; exact H).
  rewrite length_app, length_rev; cbn [List.length].
  replace (0 + Z.of_nat (List.length post) =? -1) with false by (symmetry; apply Z.eqb_neq; lia).
  lia.
Qed.

Lemma slice_app (pre mid post : str) :
  slice (pre ++ mid ++ post) (List.length pre) (List.length pre + List.length mid) = mid.
Proof.
  unfold slice; rewrite skipn_app, skipn_all, Nat.sub_diag; cbn [app skipn].
  replace (List.length pre + List.length mid - List.length pre)%nat with (List.length mid) by lia.
  rewrite firstn_app, firstn_all, Nat.sub_diag; cbn [firstn]; apply app_nil_r.
Qed.

Lemma py_slice_in (x : str) (i j : Z) :
  0 <= i <= Z.of_nat (List.length x) -> 0 <= j <= Z.of_nat (List.length x) ->
  py_slice x i j = slice x (Z.to_nat i) (Z.to_nat j).
Proof.
  intros Hi Hj; unfold py_slice, py_index.
  replace (i <? 0) with false by (symmetry; apply Z.ltb_ge; lia).
  replace (j <? 0) with false by (symmetry; apply Z.ltb_ge; lia).
  rewrite Z.min_l by lia; rewrite Z.min_l by lia; reflexivity.
Qed.

Definition bad_ctrl (c : json) : Prop :=
  match c with
  | JObj kv => py_len (get_d (s "evidence") (JArr []) kv) = None
  | _ => True
  end.

Definition is_obj (c : json) : Prop := match c with JObj _ => True | _ => False end.

Lemma repair_all_none l : repair_all l = None <-> Exists (fun c => ~ is_obj c) l.
Proof.
  induction l as [|c r IH]; simpl.
  - split; [discriminate | intros H; inversion H].
  - rewrite Exists_cons, <- IH.
    destruct c as [| | | | | |kv]; simpl;
      try (split; [intros _; left; tauto | reflexivity]).
    unfold repair_ctrl.
    destruct (truthy _ && _); destruct (repair_all r);
      (split; [intros H; try discriminate; right; reflexivity
              | intros [H|H]; [exfalso; exact (H I) | try discriminate; reflexivity]]).
Qed.

Lemma repair_all_objs l cs' : repair_all l = Some cs' -> Forall is_obj cs'.
Proof.
  revert cs'; induction l as [|c r IH]; simpl; intros cs' H.
  - injection H as <-; constructor.
  - destruct (repair_ctrl c) as [c'|] eqn:Ec, (repair_all r) as [r'|]; try discriminate.
    injection H as <-; constructor; [| apply IH; reflexivity].
    destruct c as [| | | | | |kv]; try discriminate; unfold repair_ctrl in Ec.
    destruct (truthy _ && _); injection Ec as <-; exact I.
Qed.

Lemma covered_count_objs cs : Forall is_obj cs -> covered_count cs <> None.
Proof.
  induction cs as [|c r IH]; simpl; intros H; [discriminate |].
  inversion H as [|? ? Hc Hr]; subst.
  destruct c; try contradiction.
  destruct (covered_count r); [discriminate | exfalso; exact (IH Hr eq_refl)].
Qed.

Lemma evidence_quotes_repair l cs' :
  repair_all l = Some cs' -> (evidence_quotes cs' = None <-> Exists bad_ctrl l).
Proof.
  revert cs'; induction l as [|c r IH]; simpl; intros cs' H.
  - injection H as <-; split; [discriminate | intros E; inversion E].
  - destruct (repair_ctrl c) as [c'|] eqn:Ec, (repair_all r) as [r'|]; try discriminate.
    injection H as <-; rewrite Exists_cons, <- (IH r' eq_refl).
    destruct c as [| | | | | |kv]; try discriminate; unfold repair_ctrl in Ec.
    assert (Hev : exists kv', c' = JObj kv' /\
                  get_d (s "evidence") (JArr []) kv' = get_d (s "evidence") (JArr []) kv).
    { destruct (truthy _ && _); injection Ec as <-; eexists; split; try reflexivity.
      unfold get_d; rewrite dget_dset_other by keys_differ; reflexivity. }
    destruct Hev as (kv' & -> & Hev); cbn [evidence_quotes bad_ctrl]; rewrite Hev.
    destruct (py_len _), (evidence_quotes r'); intuition discriminate.
Qed.

Lemma postprocess_raises controls clauses d0 :
  postprocess controls clauses (JObj d0) = Raises <-> Exists bad_ctrl (controls_of d0).
Proof.
  unfold postprocess, controls_of.
  destruct (dget (s "controls") d0) as [j|] eqn:Ec.
  2:{ rewrite ensure_controls_nonlist
        by (intros l; rewrite dget_dpop_other by keys_differ; rewrite Ec; discriminate).
      rewrite (controls_list_get _ (map fresh_ctrl controls)) by apply dget_dset_same.
      rewrite repair_all_fresh, covered_count_fresh, evidence_quotes_fresh.
      split; [discriminate | intros H; inversion H]. }
  destruct j as [| | | | |l|];
    try (rewrite ensure_controls_nonlist
           by (intros l'; rewrite dget_dpop_other by keys_differ; rewrite Ec; discriminate);
         rewrite (controls_list_get _ (map fresh_ctrl controls)) by apply dget_dset_same;
         rewrite repair_all_fresh, covered_count_fresh, evidence_quotes_fresh;
         split; [discriminate | intros H; inversion H]).
  assert (Hd1 : dget (s "controls") (dpop (s "confidence") d0) = Some (JArr l))
    by (rewrite dget_dpop_other by keys_differ; exact Ec).
  rewrite (ensure_controls_list _ _ _ Hd1), (controls_list_get _ _ Hd1).
  destruct (repair_all l) as [cs'|] eqn:Hr.
  - pose proof (covered_count_objs cs' (repair_all_objs l cs' Hr)) as Hcc.
    rewrite <- (evidence_quotes_repair l cs' Hr).
    destruct (covered_count cs'); [| exfalso; exact (Hcc eq_refl)].
    destruct (evidence_quotes cs'); split; intros; congruence.
  - split; [intros _ | reflexivity].
    apply repair_all_none in Hr.
    eapply Exists_impl; [| exact Hr].
    intros [| | | | | |kv] H; simpl; auto; exfalso; exact (H I).
Qed.

Lemma postprocess_keeps controls clauses d0 d k :
  postprocess controls clauses (JObj d0) = Verdict d ->
  str_eqb k (s "confidence") = false -> str_eqb k (s "status") = false ->
  str_eqb k (s "controls") = false ->
  dget k d = dget k d0.
Proof.
  intros H H1 H2 H3; apply postprocess_inv in H.
  destruct H as (d0' & cs' & cov & q & Hd & _ & _ & _ & ->).
  injection Hd as <-.
  rewrite !dget_dset_other by assumption.
  unfold ensure_controls; destruct (dget (s "controls") _) as [[| | | | | |]|];
    rewrite ?dget_dset_other by assumption; apply dget_dpop_other; assumption.
Qed.

End AnFacts.

Import AnFacts.

(** analyze_requirement, parse step: when [json.loads] rejects the whole
    reply and the reply has the form pre + "{" + mid + "}" + post, with no
    "{" in pre and no "}" in post, the reply is decoded from its outermost
    brace span "{" + mid + "}". *)
Theorem parse_response_brace_span (json_loads : str -> option json) (pre mid post : str) :
  ~ In "{"%char pre -> ~ In "}"%char post ->
  json_loads (pre ++ "{"%char :: mid ++ "}"%char :: post) = None ->
  parse_response json_loads (pre ++ "{"%char :: mid ++ "}"%char :: post)
  = json_loads ("{"%char :: mid ++ ["}"%char]).
Proof.
  intros Hpre Hpost Hnone; unfold parse_response; rewrite Hnone.
  set (raw := pre ++ "{"%char :: mid ++ "}"%char :: post).
  assert (Hf : py_find "{"%char raw = Z.of_nat (List.length pre)) by (apply py_find_app; exact Hpre).
  assert (Hr : py_rfind "}"%char raw = Z.of_nat (List.length (pre ++ "{"%char :: mid))).
  { unfold raw; replace (pre ++ "{"%char :: mid ++ "}"%char :: post)
      with ((pre ++ "{"%char :: mid) ++ "}"%char :: post) by (rewrite <- app_assoc; reflexivity).
    apply py_rfind_app; exact Hpost. }
  assert (Hn : Z.of_nat (List.length raw) = Z.of_nat (List.length pre) + Z.of_nat (List.length mid) + 2
                                            + Z.of_nat (List.length post)).
  { unfold raw; rewrite !length_app; cbn [List.length]; rewrite length_app; cbn [List.length]; lia. }
  rewrite Hf, Hr, py_slice_in; rewrite ?length_app; cbn [List.length]; try lia.
  replace (Z.to_nat (Z.of_nat (List.length pre))) with (List.length pre) by lia.
  replace (Z.to_nat (Z.of_nat (List.length pre + S (List.length mid)) + 1))
    with (List.length pre + List.length ("{"%char :: mid ++ ["}"%char]))%nat
    by (cbn [List.length]; rewrite length_app; cbn [List.length]; lia).
  unfold raw; replace (pre ++ "{"%char :: mid ++ "}"%char :: post)
    with (pre ++ ("{"%char :: mid ++ ["}"%char]) ++ post)
    by (cbn [app]; rewrite <- app_assoc; reflexivity).
  rewrite slice_app; reflexivity.
Qed.

Lemma parse_response_brace_span_witness :
  ~ In "{"%char (s "Here:") /\ ~ In "}"%char (s ". Done") /\
  Inputs.loads_only (s "{}") JNull (s "Here:" ++ "{"%char :: [] ++ "}"%char :: s ". Done") = None /\
  parse_response (Inputs.loads_only (s "{}") JNull)
    (s "Here:" ++ "{"%char :: [] ++ "}"%char :: s ". Done")
  = Inputs.loads_only (s "{}") JNull ("{"%char :: [] ++ ["}"%char]).
Proof.
  assert (H1 : ~ In "{"%char (s "Here:")) by (vm_compute; intuition discriminate).
  assert (H2 : ~ In "}"%char (s ". Done")) by (vm_compute; intuition discriminate).
  assert (H3 : Inputs.loads_only (s "{}") JNull (s "Here:" ++ "{"%char :: [] ++ "}"%char :: s ". Done")
               = None) by (vm_compute; reflexivity).
  split; [exact H1 | split; [exact H2 | split; [exact H3 |]]].
  exact (parse_response_brace_span (Inputs.loads_only (s "{}") JNull) (s "Here:") [] (s ". Done")
           H1 H2 H3).
Defined.

(** analyze_requirement, evidence branch: the verdict keeps the value of
    every key of the decoded reply other than "confidence", "status" and
    "controls", which are the only keys it rewrites. *)
Theorem analyze_keeps_reply_keys (json_loads : str -> option json) (name desc : str)
        (controls : list str) (c : clause) (cl : list clause) (content : str)
        (d0 d : dict) (k : str) :
  parse_response json_loads (strip content) = Some (JObj d0) ->
  run (analyze_requirement json_loads name desc controls (c :: cl)) content = Verdict d ->
  str_eqb k (s "confidence") = false -> str_eqb k (s "status") = false ->
  str_eqb k (s "controls") = false ->
  dget k d = dget k d0.
Proof.
  intros Hp H; rewrite run_analyze_cons, Hp in H.
  eapply postprocess_keeps; exact H.
Qed.

Lemma analyze_keeps_reply_keys_witness :
  exists d0 d,
    parse_response (Inputs.loads_only Inputs.reply Inputs.one_covered) (strip Inputs.reply)
      = Some (JObj d0) /\
    run (analyze_requirement (Inputs.loads_only Inputs.reply Inputs.one_covered)
           Inputs.args_name Inputs.args_desc Inputs.controls3 [Inputs.clause1]) Inputs.reply
      = Verdict d /\
    dget (s "requirement") d = dget (s "requirement") d0.
Proof.
  eexists; eexists.
  assert (Hp : parse_response (Inputs.loads_only Inputs.reply Inputs.one_covered) (strip Inputs.reply)
               = Some (JObj [(s "requirement", JStr (s "Data protection"));
        (s "status", JStr PARTIAL); (s "confidence", JInt 99);
        (s "controls", JArr [Inputs.ctrl "Encryption" true ["encrypts data at rest"%string]])]))
    by (vm_compute; reflexivity).
  assert (Hr : run (analyze_requirement (Inputs.loads_only Inputs.reply Inputs.one_covered)
           Inputs.args_name Inputs.args_desc Inputs.controls3 [Inputs.clause1]) Inputs.reply
      = Verdict (Inputs.verdict_of (run (analyze_requirement
           (Inputs.loads_only Inputs.reply Inputs.one_covered)
           Inputs.args_name Inputs.args_desc Inputs.controls3 [Inputs.clause1]) Inputs.reply)))
    by (vm_compute; reflexivity).
  split; [exact Hp | split; [exact Hr |]].
  apply (analyze_keeps_reply_keys _ _ _ _ _ _ _ _ _ _ Hp Hr);
    vm_compute; reflexivity.
Defined.

(** analyze_requirement, evidence branch: the call raises exactly when the
    reply does not decode, decodes to something other than an object, or
    its "controls" value is a list holding a non-dict or a dict whose
    "evidence" has no length (null, a number or a boolean). *)
Theorem analyze_raises_iff (json_loads : str -> option json) (name desc : str)
        (controls : list str) (c : clause) (cl : list clause) (content : str) :
  run (analyze_requirement json_loads name desc controls (c :: cl)) content = Raises <->
  match parse_response json_loads (strip content) with
  | Some (JObj d0) =>
      Exists (fun ctrl => match ctrl with
                          | JObj kv => py_len (get_d (s "evidence") (JArr []) kv) = None
                          | _ => True
                          end) (controls_of d0)
  | _ => True
  end.
Proof.
  rewrite run_analyze_cons.
  destruct (parse_response json_loads (strip content)) as [[| | | | | |d0]|];
    try (cbn [postprocess]; tauto).
  apply postprocess_raises.
Qed.

(** ** [FaissVectorStore.search] and [retrieve_for_chat] *)

Module ChatFacts.
Import Py Analyzer Retriever Chat.

(** A [retrieve_clauses] result without its ["label"] key. *)
Definition unlabel (c : clause) : clause :=
  {| cl_chunk_id := cl_chunk_id c; cl_label := None; cl_score := cl_score c; cl_text := cl_text c |}.

Lemma filter_map_chat (min_score : Q) hs :
  map unlabel (filter (passes min_score) (map to_result hs)) =
  filter (passes min_score) (map to_chat hs).
Proof.
  induction hs as [|[[[i sc] t] m] r IH]; [reflexivity |].
  cbn [map filter]; cbn [to_result to_chat passes cl_score].
  destruct (Qle_bool min_score sc); cbn [map]; rewrite IH; reflexivity.
Qed.

End ChatFacts.

Import Chat ChatFacts.

(** FaissVectorStore.search: with top_k = 0 it raises (faiss asserts
    k > 0); with top_k >= 1, a query of the store's dimension and a store
    holding a text and a meta for every vector, it returns.  Whenever it
    returns, it returns min(top_k, number of stored vectors) hits, in
    descending score order, with pairwise distinct ids; each hit (i, score,
    text, meta) names the stored vector i, carries the text and meta keyed
    under i, and score is that vector's similarity to the query.  Among
    equal scores the order is faiss's own. *)
Theorem faiss_search_hits (sim : list Q -> list Q -> Q) (pad_score : Q)
        (rank : nat -> list (Z * Q) -> list (Z * Q)) (Hrank : rank_ok rank) (st : store)
        (q : list Q) (top_k : nat) :
  (top_k = 0%nat -> search sim pad_score rank st q top_k = None) /\
  ((0 < top_k)%nat -> List.length q = dim st -> aligned st ->
     exists hs, search sim pad_score rank st q top_k = Some hs) /\
  forall hs, search sim pad_score rank st q top_k = Some hs ->
    List.length hs = Nat.min top_k (List.length (vecs st)) /\
    StronglySorted desc_hit hs /\
    NoDup (map hit_id hs) /\
    Forall (fun h => let '(i, sc, t, m) := h in
              exists v, (0 <= i)%Z /\ nth_error (vecs st) (Z.to_nat i) = Some v /\
                        lookup (text_by_id st) i = Some t /\ lookup (meta_by_id st) i = Some m /\
                        sc = sim q v) hs.
Proof.
  split; [intros ->; apply search_k0 | split].
  - intros Hk Hq Hal; exact (search_aligned sim pad_score rank Hrank st q top_k Hk Hq Hal).
  - intros hs Hs; exact (search_hits _ _ _ Hrank _ _ _ _ Hs).
Qed.

(** retrieve_for_chat raises with top_k = 0; whenever it returns, it
    returns min(top_k, number of stored vectors) chunks, whatever their
    score.  For the query text that retrieve_clauses builds, retrieve_clauses
    raises exactly when retrieve_for_chat does, and otherwise returns
    exactly, label apart, the chunks of retrieve_for_chat that score at
    least min_score. *)
Theorem chat_retrieval_unfiltered (embed : str -> list Q) (sim : list Q -> list Q -> Q)
        (pad_score : Q) (rank : nat -> list (Z * Q) -> list (Z * Q)) (Hrank : rank_ok rank)
        (st : store) (question : str) (top_k : nat) :
  (top_k = 0%nat -> retrieve_for_chat embed sim pad_score rank st question top_k = None) /\
  (forall rs, retrieve_for_chat embed sim pad_score rank st question top_k = Some rs ->
     List.length rs = Nat.min top_k (List.length (vecs st))) /\
  forall name desc controls min_score,
    option_map (map unlabel)
      (retrieve_clauses embed sim pad_score rank st name desc controls top_k min_score) =
    option_map (filter (passes min_score))
      (retrieve_for_chat embed sim pad_score rank st (query_of name desc controls) top_k).
Proof.
  split; [| split].
  - intros ->; unfold retrieve_for_chat; rewrite search_k0; reflexivity.
  - intros rs H; unfold retrieve_for_chat in H.
    destruct (search sim pad_score rank st (embed question) top_k) as [hs|] eqn:Hs;
      [| discriminate].
    injection H as <-; rewrite length_map.
    exact (proj1 (search_hits _ _ _ Hrank _ _ _ _ Hs)).
  - intros name desc controls min_score; unfold retrieve_clauses, retrieve_for_chat; cbv zeta.
    destruct (search sim pad_score rank st (embed (query_of name desc controls)) top_k)
      as [hs|]; cbn [option_map]; [f_equal; apply filter_map_chat | reflexivity].
Qed.

(** Witness for the search properties: five rows asked of a three-vector
    store. *)
Lemma faiss_search_hits_witness :
  exists hs, search Inputs.sim4 0%Q sort_rank Inputs.store3 [1%Q] 5 = Some hs /\
             List.length hs = 3%nat.
Proof.
  destruct (faiss_search_hits Inputs.sim4 0%Q sort_rank sort_rank_ok Inputs.store3 [1%Q] 5)
    as (_ & Hc & Ha).
  assert (Hk : (0 < 5)%nat) by lia.
  assert (Hq : List.length [1%Q] = dim Inputs.store3) by reflexivity.
  assert (Hal : aligned Inputs.store3) by (split; cbn; lia).
  destruct (Hc Hk Hq Hal) as (hs & Hs).
  exists hs; split; [exact Hs |].
  rewrite (proj1 (Ha hs Hs)); reflexivity.
Defined.

(** Witness for the chat retrieval: two chunks asked of a three-vector
    store. *)
Lemma chat_retrieval_unfiltered_witness :
  exists rs, retrieve_for_chat Inputs.embed1 Inputs.sim4 0%Q sort_rank Inputs.store3 (s "q") 2
             = Some rs /\ List.length rs = 2%nat.
Proof.
  destruct (chat_retrieval_unfiltered Inputs.embed1 Inputs.sim4 0%Q sort_rank sort_rank_ok
              Inputs.store3 (s "q") 2) as (_ & Hl & _).
  destruct (retrieve_for_chat Inputs.embed1 Inputs.sim4 0%Q sort_rank Inputs.store3 (s "q") 2)
    as [rs|] eqn:E; [| vm_compute in E; discriminate].
  exists rs; split; [reflexivity | exact (Hl rs eq_refl)].
Defined.

(** ** [report_table.py] *)
Module RTFacts.
Import Py Json PyText Analyzer ReportTable StrFacts Facts.
Local Open Scope Z_scope.

Lemma str_eqb_false (a b : str) : str_eqb a b = false -> a <> b.
Proof. intros H E; subst b; rewrite str_eqb_refl in H; discriminate. Qed.

Definition STATUSES : list str := [FULLY; PARTIAL; NONC].

Lemma map_state_falsy j : truthy j = false -> _map_state j = Some [].
Proof. intros H; unfold _map_state; rewrite H; reflexivity. Qed.

Lemma map_state_str x : x <> [] -> exists st, _map_state (JStr x) = Some st /\ In st STATUSES.
Proof.
  intros Hx; unfold _map_state.
  replace (truthy (JStr x)) with true by (destruct x; [contradiction | reflexivity]).
  cbn [negb]; cbv zeta.
  destruct (str_eqb (strip x) FULLY || str_eqb (strip x) PARTIAL || str_eqb (strip x) NONC) eqn:E.
  - exists (strip x); split; [reflexivity |].
    apply orb_true_iff in E; destruct E as [E | E]; [apply orb_true_iff in E; destruct E as [E | E] |];
      apply str_eqb_true in E; rewrite E; simpl; tauto.
  - destruct (str_eqb (strip x) (s "Compliant")); [eexists; split; [reflexivity | simpl; tauto] |].
    destruct (str_eqb (strip x) (s "Partial")); eexists; split; try reflexivity; simpl; tauto.
Qed.

Lemma map_state_status st : In st STATUSES -> _map_state (JStr st) = Some st.
Proof. intros [<- | [<- | [<- | []]]]; vm_compute; reflexivity. Qed.

Lemma map_state_nonstr j : truthy j = true -> (forall x, j <> JStr x) -> _map_state j = None.
Proof.
  intros H Hn; unfold _map_state; rewrite H; cbn [negb].
  destruct j; try reflexivity; exfalso; eapply Hn; reflexivity.
Qed.

Lemma map_state_out j y : _map_state j = Some y -> y = [] \/ In y STATUSES.
Proof.
  destruct (truthy j) eqn:T.
  - destruct j as [| | | |x| |]; try (rewrite map_state_nonstr by (auto; discriminate); discriminate).
    destruct x as [|a x]; [discriminate |].
    destruct (map_state_str (a :: x)) as (st & Hs & Hin); [discriminate |].
    rewrite Hs; intros H; injection H as <-; right; exact Hin.
  - rewrite map_state_falsy by exact T; intros H; injection H as <-; left; reflexivity.
Qed.

Lemma overflow_big : 100 < FLOAT_OVERFLOW.
Proof. vm_compute; reflexivity. Qed.

Lemma to_int_conf_range (py_float : str -> option Q) v : 0 <= _to_int_conf py_float v <= 100.
Proof.
  destruct v as [|b|z|q|x|l|kv]; cbn [_to_int_conf]; unfold clamp100; try lia.
  - destruct b; lia.
  - destruct (FLOAT_OVERFLOW <=? Z.abs z); lia.
  - destruct (py_float _); lia.
Qed.

Lemma to_int_conf_int (py_float : str -> option Q) z : 0 <= z <= 100 -> _to_int_conf py_float (JInt z) = z.
Proof.
  intros H; cbn [_to_int_conf]; pose proof overflow_big.
  replace (FLOAT_OVERFLOW <=? Z.abs z) with false by (symmetry; apply Z.leb_gt; lia).
  unfold clamp100; lia.
Qed.

(** The groups [_collect_grouped_quotes] builds: distinct labels, each with
    a non-empty list of distinct, non-empty, stripped quotes. *)
Definition good_q (q : str) : Prop := q <> [] /\ strip q = q.
Definition ginv (g : groups) : Prop :=
  NoDup (map fst g) /\ Forall (fun p => snd p <> [] /\ NoDup (snd p) /\ Forall good_q (snd p)) g.

Lemma group_add_fst lab q g l : In l (map fst (group_add lab q g)) <-> lab = l \/ In l (map fst g).
Proof.
  induction g as [|[l' qs] r IH]; simpl; [tauto |].
  destruct (str_eqb lab l') eqn:E; simpl.
  - apply str_eqb_true in E; subst l'; tauto.
  - rewrite IH; tauto.
Qed.

Lemma existsb_str_false q qs : existsb (str_eqb q) qs = false -> ~ In q qs.
Proof.
  intros H Hin; assert (existsb (str_eqb q) qs = true) by
    (apply existsb_exists; exists q; split; [exact Hin | apply str_eqb_refl]).
  congruence.
Qed.

Lemma group_add_inv lab q g : good_q q -> ginv g -> ginv (group_add lab q g).
Proof.
  intros Hq; induction g as [|[l' qs] r IH]; intros [Hnd Hf]; simpl.
  - split; [repeat constructor; simpl; tauto |].
    constructor; [| constructor]; simpl.
    split; [discriminate | split; [repeat constructor; simpl; tauto | constructor; auto]].
  - inversion Hnd as [|? ? Hl' Hnd']; subst.
    inversion Hf as [|? ? (Hne & Hnq & Hgq) Hf']; subst; simpl in Hne, Hnq, Hgq.
    destruct (str_eqb lab l') eqn:E.
    + split; [exact Hnd |]; constructor; [| exact Hf']; simpl.
      destruct (existsb (str_eqb q) qs) eqn:Ex; [auto |].
      split; [destruct qs; simpl; discriminate |].
      split; [| apply Forall_app; split; [exact Hgq | constructor; auto]].
      eapply Permutation_NoDup; [apply Permutation_cons_append |].
      constructor; [apply existsb_str_false; exact Ex | exact Hnq].
    + destruct (IH (conj Hnd' Hf')) as [Hnd2 Hf2].
      split; simpl.
      * constructor; [| exact Hnd2].
        rewrite group_add_fst; intros [C | C]; [apply str_eqb_false in E; congruence | contradiction].
      * constructor; [simpl; auto | exact Hf2].
Qed.

Lemma fold_opt_inv {A B} (P : A -> Prop) (f : A -> B -> option A) acc l a :
  (forall a0 b a1, P a0 -> f a0 b = Some a1 -> P a1) -> P acc -> fold_opt f acc l = Some a -> P a.
Proof.
  intros Hf; revert acc; induction l as [|b r IH]; simpl; intros acc Hacc H.
  - injection H as <-; exact Hacc.
  - destruct (f acc b) as [a1|] eqn:E; [| discriminate].
    apply (IH a1); [eapply Hf; eauto | exact H].
Qed.

Section WithStr.
Variable py_str : json -> str.

Lemma add_quote_inv g label quote g' :
  add_quote py_str g label quote = Some g' -> ginv g -> ginv g'.
Proof.
  unfold add_quote; intros H Hg.
  destruct (if truthy quote then quote else JStr []) as [| | | |x| |]; try discriminate.
  destruct (strip x) as [|a r] eqn:Es; [injection H as <-; exact Hg |].
  destruct (norm_label py_str label (a :: r)) as [lab|]; [| discriminate].
  injection H as <-; apply group_add_inv; [| exact Hg].
  split; [discriminate | rewrite <- Es; apply strip_idem].
Qed.

Lemma add_control_inv g c g' : add_control py_str g c = Some g' -> ginv g -> ginv g'.
Proof.
  unfold add_control; intros H Hg.
  destruct c as [| | | | | |kv]; try discriminate.
  destruct (iter_or_empty _) as [es|]; [| discriminate].
  eapply fold_opt_inv; [| exact Hg | exact H].
  intros a0 [| | | | | |kv'] a1 Ha H'; try discriminate; eapply add_quote_inv; eauto.
Qed.

Lemma quote_groups_inv result g : quote_groups py_str result = Some g -> ginv g.
Proof.
  unfold quote_groups; intros H.
  destruct (iter_or_empty _) as [cs|]; [| discriminate].
  destruct (fold_opt (add_control py_str) [] cs) as [g0|] eqn:E0; [| discriminate].
  assert (Hg0 : ginv g0).
  { eapply fold_opt_inv; [intros; eapply add_control_inv; eauto | | exact E0].
    split; constructor. }
  destruct (get_d (s "Relevant Quotes") JNull result) as [| | | | |[|i rq]|];
    try (injection H as <-; exact Hg0).
  eapply fold_opt_inv; [| exact Hg0 | exact H].
  intros a0 [| | | | | |kv] a1 Ha Hs; unfold add_rq_item in Hs; eapply add_quote_inv; eauto.
Qed.

End WithStr.

Lemma insert_key_length x l : List.length (insert_key x l) = S (List.length l).
Proof.
  induction l as [|y r IH]; simpl; [reflexivity |].
  destruct (key_lt _ _); simpl; [reflexivity | rewrite IH; reflexivity].
Qed.

Lemma sorted_labels_length ks : List.length (sorted_labels ks) = List.length ks.
Proof.
  unfold sorted_labels.
  assert (H : forall acc, List.length (fold_left (fun acc k => insert_key k acc) ks acc)
                          = (List.length acc + List.length ks)%nat).
  { induction ks as [|k r IH]; intros acc; simpl; [lia |].
    rewrite IH, insert_key_length; simpl; lia. }
  rewrite H; reflexivity.
Qed.

Lemma render_nonempty_groups ms mq g :
  (0 < ms)%nat -> g <> [] -> render (select_groups ms mq g) <> DASH.
Proof.
  intros Hms Hg.
  assert (Hl : exists lab r, sorted_labels (map fst g) = lab :: r).
  { destruct (sorted_labels (map fst g)) as [|lab r] eqn:E; [| eauto].
    apply (f_equal (@List.length _)) in E; rewrite sorted_labels_length, length_map in E.
    destruct g; [contradiction | discriminate]. }
  destruct Hl as (lab & r & Hl).
  unfold render, select_groups; rewrite Hl.
  destruct ms as [|ms]; [lia |]; cbn [firstn map flat_map fst].
  set (J := join [nl] _).
  assert (Hc : In ":"%char (strip J)).
  { apply strip_keeps; [| reflexivity].
    unfold J; rewrite <- app_comm_cons; apply join_first, in_or_app; right; left; reflexivity. }
  destruct (strip J) as [|a out]; [contradiction |].
  intros E; rewrite E in Hc; vm_compute in Hc; intuition discriminate.
Qed.

End RTFacts.

Import ReportTable RTFacts.

(** _map_state: a falsy status (None, "", 0, ...) gives ""; a non-empty
    string gives one of "Fully Compliant", "Partially Compliant",
    "Non-Compliant" (a white-space-only string gives "Non-Compliant"); the
    three statuses are kept as they are; a truthy status that is not a
    string raises (None here). *)
Theorem map_state_cases :
  (forall j, truthy j = false -> _map_state j = Some []) /\
  (forall x, x <> [] -> exists st, _map_state (JStr x) = Some st /\ In st [FULLY; PARTIAL; NONC]) /\
  (forall x, all_space x -> x <> [] -> _map_state (JStr x) = Some NONC) /\
  (forall st, In st [FULLY; PARTIAL; NONC] -> _map_state (JStr st) = Some st) /\
  (forall j, truthy j = true -> (forall x, j <> JStr x) -> _map_state j = None).
Proof.
  split; [exact map_state_falsy |].
  split; [exact map_state_str |].
  split; [| split; [exact map_state_status | exact map_state_nonstr]].
  intros x Hs Hne; unfold _map_state.
  replace (truthy (JStr x)) with true by (destruct x; [contradiction | reflexivity]).
  cbn [negb]; cbv zeta; rewrite (proj2 (strip_nil x) Hs); vm_compute; reflexivity.
Qed.

(** _to_int_conf always returns an integer between 0 and 100, and returns an
    integer in that range unchanged. *)
Theorem to_int_conf_bounds (py_float : str -> option Q) :
  (forall v, (0 <= _to_int_conf py_float v <= 100)%Z) /\
  (forall z, (0 <= z <= 100)%Z -> _to_int_conf py_float (JInt z) = z).
Proof. split; [apply to_int_conf_range | apply to_int_conf_int]. Qed.

(** [run_analyze] verdicts seen by the table, and the table's failures *)
Module TableFacts.
Import Py Json PyText Analyzer Facts Facts2 ReportTable RTFacts.
Local Open Scope Z_scope.

Lemma status_of_in total cov : In (status_of total cov) STATUSES.
Proof. unfold status_of; destruct (_ && _); [| destruct (_ =? _)]; simpl; tauto. Qed.

Lemma verdict_status_conf json_loads name desc controls clauses content d :
  run (analyze_requirement json_loads name desc controls clauses) content = Verdict d ->
  exists st c, dget (s "status") d = Some (JStr st) /\ dget (s "confidence") d = Some (JInt c) /\
               In st STATUSES /\ 0 <= c <= 100.
Proof.
  intros H; apply run_analyze_inv in H; destruct H as [(_ & ->) | (_ & data & _ & H)].
  - exists NONC, 20; split; [vm_compute; reflexivity |].
    split; [vm_compute; reflexivity | split; [simpl; tauto | lia]].
  - apply postprocess_fields in H.
    destruct H as (d0 & cs' & cov & q & _ & _ & _ & Hq & _ & Hst & Hc).
    eexists; eexists; split; [exact Hst | split; [exact Hc | split; [apply status_of_in |]]].
    pose proof (confidence_of_range (Z.of_nat (List.length controls)) cov q (avg_score clauses)
                  (status_of (if Z.of_nat (List.length cs') =? 0
                              then Z.of_nat (List.length controls)
                              else Z.of_nat (List.length cs')) cov)
                  (evidence_quotes_nonneg _ _ Hq)) as [H0 H1].
    destruct (Z.eq_dec q 0) as [E | E]; [rewrite (H0 E); lia | specialize (H1 E); lia].
Qed.

Lemma fold_opt_none {A B} (f : A -> B -> option A) (acc : A) (l : list B) (b : B) :
  In b l -> (forall a, f a b = None) -> fold_opt f acc l = None.
Proof.
  intros Hin Hb; revert acc; induction l as [|b0 r IH]; intros acc; [contradiction |].
  destruct Hin as [<- | Hin]; simpl; [rewrite Hb; reflexivity |].
  destruct (f acc b0); [apply IH; exact Hin | reflexivity].
Qed.

Lemma build_rows_none py_str py_float results r :
  In r results -> build_row py_str py_float r = None -> build_table_rows py_str py_float results = None.
Proof.
  induction results as [|r0 rs IH]; intros Hin Hr; [contradiction |].
  destruct Hin as [<- | Hin]; simpl; [rewrite Hr; reflexivity |].
  rewrite (IH Hin Hr); destruct (build_row _ _ r0); reflexivity.
Qed.

Lemma rows_none_nondict (py_str : json -> str) (py_float : str -> option Q)
      (results : list dict) (r : dict) (cs : list json) (kv : dict) (es : list json) (e : json) :
  In r results ->
  get_d (s "controls") JNull r = JArr cs -> In (JObj kv) cs ->
  get_d (s "evidence") JNull kv = JArr es -> In e es -> (forall kv', e <> JObj kv') ->
  build_table_rows py_str py_float results = None.
Proof.
  intros Hr Hcs Hc Hes He Hne.
  apply (build_rows_none _ _ _ r Hr).
  assert (Hq : quote_groups py_str r = None).
  { unfold quote_groups, iter_or_empty; rewrite Hcs.
    replace (truthy (JArr cs)) with true by (destruct cs; [contradiction | reflexivity]).
    cbn [negb].
    replace (fold_opt (add_control py_str) [] cs) with (@None groups); [reflexivity |].
    symmetry; apply (fold_opt_none _ _ _ (JObj kv) Hc).
    intros g; unfold add_control, iter_or_empty; rewrite Hes.
    replace (truthy (JArr es)) with true by (destruct es; [contradiction | reflexivity]).
    cbn [negb]; apply (fold_opt_none _ _ _ e He).
    intros g'; destruct e; try reflexivity; exfalso; eapply Hne; reflexivity. }
  unfold build_row, _collect_grouped_quotes; rewrite Hq.
  destruct (_map_state _); reflexivity.
Qed.

(** The repair of the evidence branch only touches ["covered"]: control
    [i] of the verdict has the ["evidence"] of control [i] of the reply. *)
Lemma verdict_keeps_evidence json_loads name desc controls c cl content d0 cs0 d i kv0 :
  parse_response json_loads (strip content) = Some (JObj d0) ->
  dget (s "controls") d0 = Some (JArr cs0) ->
  nth_error cs0 i = Some (JObj kv0) ->
  run (analyze_requirement json_loads name desc controls (c :: cl)) content = Verdict d ->
  exists kv', get_d (s "controls") JNull d = JArr (controls_of d) /\
              nth_error (controls_of d) i = Some (JObj kv') /\
              get_d (s "evidence") JNull kv' = get_d (s "evidence") JNull kv0.
Proof.
  intros Hp Hcs Hi H; rewrite run_analyze_cons, Hp in H.
  apply postprocess_inv in H.
  destruct H as (d0' & cs' & cov & q & Hd & Hr & _ & _ & ->).
  injection Hd as <-.
  assert (Hd1 : dget (s "controls") (dpop (s "confidence") d0) = Some (JArr cs0))
    by (rewrite dget_dpop_other by keys_differ; exact Hcs).
  rewrite (ensure_controls_list _ _ _ Hd1), (controls_list_get _ _ Hd1) in Hr.
  destruct (repair_all_nth _ _ _ _ Hr Hi) as (c' & Hrc & Hi').
  unfold controls_of, get_d at 1.
  rewrite dget_dset_other by keys_differ; rewrite dget_dset_other by keys_differ.
  rewrite dget_dset_same.
  unfold repair_ctrl in Hrc.
  destruct (truthy (get_d (s "covered") JNull kv0) && negb (truthy (get_d (s "evidence") JNull kv0)));
    injection Hrc as <-; eexists; (split; [reflexivity | split; [exact Hi' |]]).
  - unfold get_d; rewrite dget_dset_other by keys_differ; reflexivity.
  - reflexivity.
Qed.

End TableFacts.

Import PyText TableFacts.

(** The table row that build_table_rows makes for a verdict of
    analyze_requirement without the keys "Compliance State" and
    "Confidence": its state is the verdict's status, one of the three
    statuses, and its confidence is the verdict's confidence followed by
    "%". *)
Theorem table_row_of_verdict (py_str : json -> str) (py_float : str -> option Q)
        (json_loads : str -> option json) (name desc : str) (controls : list str)
        (clauses : list clause) (content : str) (d : dict) (rw : row) :
  run (analyze_requirement json_loads name desc controls clauses) content = Verdict d ->
  dget (s "Compliance State") d = None -> dget (s "Confidence") d = None ->
  build_row py_str py_float d = Some rw ->
  exists st c, dget (s "status") d = Some (JStr st) /\ dget (s "confidence") d = Some (JInt c) /\
    In st [FULLY; PARTIAL; NONC] /\ r_state rw = st /\ r_confidence rw = percent c.
Proof.
  intros Hv Hcs Hcf Hrow.
  destruct (verdict_status_conf _ _ _ _ _ _ _ Hv) as (st & c & Hst & Hc & Hin & Hr).
  exists st, c; do 3 (split; [assumption |]).
  unfold build_row, get_d in Hrow; rewrite Hcs, Hcf, Hst, Hc in Hrow.
  rewrite (map_state_status st Hin) in Hrow.
  destruct (_collect_grouped_quotes py_str d 8 2); [| discriminate].
  injection Hrow as <-; cbn [r_state r_confidence]; split; [reflexivity |].
  unfold percent; f_equal; f_equal; pose proof overflow_big as Ho.
  replace (FLOAT_OVERFLOW <=? Z.abs c) with false by (symmetry; apply Z.leb_gt; lia).
  unfold clamp100; f_equal; lia.
Qed.

Lemma table_row_of_verdict_witness :
  exists d rw,
    run (analyze_requirement (Inputs.loads_only Inputs.reply Inputs.one_covered)
           Inputs.args_name Inputs.args_desc Inputs.controls3 [Inputs.clause1]) Inputs.reply
      = Verdict d /\
    dget (s "Compliance State") d = None /\ dget (s "Confidence") d = None /\
    build_row (fun _ => []) (fun _ => None) d = Some rw /\
    r_state rw = FULLY /\ r_confidence rw = percent 55.
Proof.
  set (d := Inputs.verdict_of (run (analyze_requirement (Inputs.loads_only Inputs.reply Inputs.one_covered)
           Inputs.args_name Inputs.args_desc Inputs.controls3 [Inputs.clause1]) Inputs.reply)).
  destruct (build_row (fun _ => []) (fun _ => None) d) as [rw|] eqn:Hb;
    [| vm_compute in Hb; discriminate].
  assert (Hv : run (analyze_requirement (Inputs.loads_only Inputs.reply Inputs.one_covered)
           Inputs.args_name Inputs.args_desc Inputs.controls3 [Inputs.clause1]) Inputs.reply
      = Verdict d) by (vm_compute; reflexivity).
  assert (H1 : dget (s "Compliance State") d = None) by (vm_compute; reflexivity).
  assert (H2 : dget (s "Confidence") d = None) by (vm_compute; reflexivity).
  exists d, rw; do 4 (split; [assumption |]).
  destruct (table_row_of_verdict (fun _ => []) (fun _ => None) _ _ _ _ _ _ d rw Hv H1 H2 Hb)
    as (st & c & Hst & Hc & _ & -> & ->).
  vm_compute in Hst, Hc; injection Hst as <-; injection Hc as <-; split; reflexivity.
Defined.

(** build_table_rows raises (None here) as soon as one result has, in a
    "controls" list, a control whose "evidence" list holds an item that is
    not a dict, e.g. a bare quote string.  analyze_requirement passes such
    evidence through unchanged: in the evidence branch, control i of the
    verdict has the "evidence" of control i of the decoded reply, so when
    that is a list holding a non-dict item, build_table_rows raises on the
    verdict. *)
Theorem table_rejects_nondict_evidence (py_str : json -> str) (py_float : str -> option Q) :
  (forall (results : list dict) (r : dict) (cs : list json) (kv : dict) (es : list json) (e : json),
     In r results ->
     get_d (s "controls") JNull r = JArr cs -> In (JObj kv) cs ->
     get_d (s "evidence") JNull kv = JArr es -> In e es -> (forall kv', e <> JObj kv') ->
     build_table_rows py_str py_float results = None) /\
  (forall (json_loads : str -> option json) (name desc : str) (controls : list str)
          (c : clause) (cl : list clause) (content : str) (d0 : dict) (cs0 : list json)
          (d : dict) (i : nat) (kv0 : dict),
     parse_response json_loads (strip content) = Some (JObj d0) ->
     dget (s "controls") d0 = Some (JArr cs0) ->
     nth_error cs0 i = Some (JObj kv0) ->
     run (analyze_requirement json_loads name desc controls (c :: cl)) content = Verdict d ->
     exists kv', nth_error (controls_of d) i = Some (JObj kv') /\
                 get_d (s "evidence") JNull kv' = get_d (s "evidence") JNull kv0 /\
                 (forall es e, get_d (s "evidence") JNull kv0 = JArr es -> In e es ->
                               (forall kv'', e <> JObj kv'') ->
                               build_table_rows py_str py_float [d] = None)).
Proof.
  split; [exact (rows_none_nondict py_str py_float) |].
  intros json_loads name desc controls c cl content d0 cs0 d i kv0 Hp Hcs Hi H.
  destruct (verdict_keeps_evidence _ _ _ _ _ _ _ _ _ _ _ _ Hp Hcs Hi H) as (kv' & Hctl & Hi' & Hev).
  exists kv'; split; [exact Hi' | split; [exact Hev |]].
  intros es e Hes He Hne.
  apply (rows_none_nondict py_str py_float [d] d (controls_of d) kv' es e).
  - left; reflexivity.
  - exact Hctl.
  - exact (nth_error_In _ _ Hi').
  - rewrite Hev; exact Hes.
  - exact He.
  - exact Hne.
Qed.

(** Witness: a reply whose only control carries its quote as a bare
    string; the verdict keeps it and the table raises on the verdict. *)
Lemma table_rejects_nondict_evidence_witness :
  exists d,
    run (analyze_requirement (Inputs.loads_only Inputs.reply Inputs.str_evidence)
           (s "Data protection") (s "desc") Inputs.controls3 [Inputs.clause1]) Inputs.reply
      = Verdict d /\
    build_table_rows (fun _ => []) (fun _ => None) [d] = None.
Proof.
  destruct (table_rejects_nondict_evidence (fun _ => []) (fun _ => None)) as (_ & H2).
  remember (run (analyze_requirement (Inputs.loads_only Inputs.reply Inputs.str_evidence)
           (s "Data protection") (s "desc") Inputs.controls3 [Inputs.clause1]) Inputs.reply)
    as o eqn:Ho.
  destruct o as [d|]; [| vm_compute in Ho; discriminate].
  exists d; split; [reflexivity |].
  destruct (H2 (Inputs.loads_only Inputs.reply Inputs.str_evidence) (s "Data protection") (s "desc")
              Inputs.controls3 Inputs.clause1 [] Inputs.reply
              (match Inputs.str_evidence with JObj kv => kv | _ => [] end) [Inputs.ctrl_str] d 0%nat
              (match Inputs.ctrl_str with JObj kv => kv | _ => [] end))
    as (kv' & _ & _ & Hrows).
  - vm_compute; reflexivity.
  - vm_compute; reflexivity.
  - reflexivity.
  - symmetry; exact Ho.
  - apply (Hrows [JStr (s "encrypts data at rest")] (JStr (s "encrypts data at rest"))).
    + vm_compute; reflexivity.
    + left; reflexivity.
    + intros kv'' E; discriminate.
Defined.

(** _collect_grouped_quotes groups quotes under pairwise distinct labels,
    each group a non-empty list of pairwise distinct, non-empty, stripped
    quotes; with max_sources >= 1 it returns the dash exactly when there is
    no group. *)
Theorem grouped_quotes_distinct (py_str : json -> str) (result : dict) (g : groups) :
  quote_groups py_str result = Some g ->
  NoDup (map fst g) /\
  Forall (fun p => snd p <> [] /\ NoDup (snd p) /\
                   Forall (fun q => q <> [] /\ strip q = q) (snd p)) g /\
  (forall max_sources max_quotes_per_source, (0 < max_sources)%nat ->
     (_collect_grouped_quotes py_str result max_sources max_quotes_per_source = Some DASH <-> g = [])).
Proof.
  intros H; destruct (quote_groups_inv _ _ _ H) as [Hnd Hf].
  split; [exact Hnd | split; [exact Hf |]].
  intros ms mq Hms; unfold _collect_grouped_quotes; rewrite H.
  destruct g as [|p g']; [split; reflexivity |].
  split; [| discriminate].
  intros E; injection E as E; exfalso; revert E; apply render_nonempty_groups; [exact Hms | discriminate].
Qed.

Lemma grouped_quotes_distinct_witness :
  exists g,
    quote_groups (fun _ => []) [(s "controls", JArr [Inputs.ctrl "Encryption" true
                                   ["encrypts data at rest"%string; "encrypts data at rest"%string]])]
      = Some g /\ g = [(s "Section 1", [s "encrypts data at rest"])] /\
    NoDup (map fst g).
Proof.
  exists [(s "Section 1", [s "encrypts data at rest"])].
  assert (H : quote_groups (fun _ => []) [(s "controls", JArr [Inputs.ctrl "Encryption" true
                                   ["encrypts data at rest"%string; "encrypts data at rest"%string]])]
              = Some [(s "Section 1", [s "encrypts data at rest"])]) by (vm_compute; reflexivity).
  split; [exact H | split; [reflexivity |]].
  exact (proj1 (grouped_quotes_distinct (fun _ => []) _ _ H)).
Defined.

(** ** [app.py]: HTML escaping, badges, the index of an upload *)
Module AppFacts.
Import Py Json PyText Chunker SectionTagger Analyzer Retriever App StrFacts ChunkInv RetrFacts.
Local Open Scope Z_scope.

(** What [_escape_html] does to one character. *)
Definition esc (c : ascii) : str :=
  if Ascii.eqb c "&"%char then ["&"; "a"; "m"; "p"; ";"]%char
  else if Ascii.eqb c "<"%char then ["&"; "l"; "t"; ";"]%char
  else if Ascii.eqb c ">"%char then ["&"; "g"; "t"; ";"]%char
  else [c].

Lemma replace1_app a r u v : replace1 a r (u ++ v) = replace1 a r u ++ replace1 a r v.
Proof. unfold replace1; apply flat_map_app. Qed.

Lemma esc_cases c :
  c = "&"%char \/ c = "<"%char \/ c = ">"%char \/
  (esc c = [c] /\ c <> "&"%char /\ c <> "<"%char /\ c <> ">"%char).
Proof.
  unfold esc.
  destruct (Ascii.eqb c "&") eqn:E1; [apply Ascii.eqb_eq in E1; auto |].
  destruct (Ascii.eqb c "<") eqn:E2; [apply Ascii.eqb_eq in E2; auto |].
  destruct (Ascii.eqb c ">") eqn:E3; [apply Ascii.eqb_eq in E3; auto |].
  apply Ascii.eqb_neq in E1, E2, E3; right; right; right; auto.
Qed.

Lemma escape_chars x :
  replace1 ">"%char (s "&gt;") (replace1 "<"%char (s "&lt;") (replace1 "&"%char (s "&amp;") x))
  = flat_map esc x.
Proof.
  induction x as [|c r IH]; [reflexivity |].
  change (c :: r) with ([c] ++ r); rewrite !replace1_app, IH, flat_map_app.
  f_equal.
  destruct (esc_cases c) as [-> | [-> | [-> | (E & n1 & n2 & n3)]]]; try (vm_compute; reflexivity).
  cbn [flat_map]; rewrite E; unfold replace1; cbn [flat_map app].
  apply Ascii.eqb_neq in n1, n2, n3; rewrite n1; cbn [flat_map app]; rewrite n2; cbn [flat_map app].
  rewrite n3; reflexivity.
Qed.

Lemma esc_no_lt_gt c : ~ In "<"%char (esc c) /\ ~ In ">"%char (esc c).
Proof.
  destruct (esc_cases c) as [-> | [-> | [-> | (E & n1 & n2 & n3)]]];
    try (vm_compute; split; intuition discriminate).
  rewrite E; split; intros [H | []]; congruence.
Qed.

Lemma esc_app_inj c d u v : esc c ++ u = esc d ++ v -> c = d /\ u = v.
Proof.
  intros H.
  destruct (esc_cases c) as [-> | [-> | [-> | (Ec & c1 & c2 & c3)]]];
  destruct (esc_cases d) as [-> | [-> | [-> | (Ed & d1 & d2 & d3)]]];
  try rewrite Ec in H; try rewrite Ed in H; vm_compute in H;
  injection H; intros; subst; try congruence; auto.
Qed.

Lemma flat_map_esc_inj a b : flat_map esc a = flat_map esc b -> a = b.
Proof.
  revert b; induction a as [|c a IH]; intros [|d b] H; cbn [flat_map] in H; auto.
  - destruct (esc_cases d) as [-> | [-> | [-> | (Ed & _)]]]; try discriminate; rewrite Ed in H; discriminate.
  - destruct (esc_cases c) as [-> | [-> | [-> | (Ec & _)]]]; try discriminate; rewrite Ec in H; discriminate.
  - apply esc_app_inj in H; destruct H as [-> H]; f_equal; apply IH; exact H.
Qed.

Lemma nth_error_combine_some {A B} (a : list A) (b : list B) j x y :
  nth_error (combine a b) j = Some (x, y) -> nth_error a j = Some x /\ nth_error b j = Some y.
Proof.
  revert b j; induction a as [|x0 a IH]; intros [|y0 b] [|j] H; simpl in H; try discriminate.
  - injection H as -> ->; split; reflexivity.
  - exact (IH b j H).
Qed.

Lemma nth_error_seq_some s0 n j k : nth_error (seq s0 n) j = Some k -> k = (s0 + j)%nat.
Proof.
  revert s0 j; induction n as [|n IH]; intros s0 [|j] H; simpl in H; try discriminate.
  - injection H as <-; lia.
  - apply IH in H; lia.
Qed.

Lemma add_fresh d embs cs st :
  add (new_store d) embs (map ctext cs) (Some (map meta_of cs)) = Some st ->
  text_by_id st = map ctext cs /\ meta_by_id st = map meta_of cs.
Proof.
  unfold add; destruct embs as [|v embs]; [discriminate |].
  destruct (forallb _ _); [| discriminate].
  destruct cs as [|c cs].
  - intros H; injection H as <-; split; reflexivity.
  - rewrite !length_map, Nat.leb_refl, firstn_all2 by (rewrite length_map; lia).
    intros H; injection H as <-; split; reflexivity.
Qed.

Lemma chunk_text_ids text mx mn ov :
  map id (chunk_text text mx mn ov) = map Z.of_nat (seq 0 (List.length (chunk_text text mx mn ov))).
Proof.
  unfold chunk_text; destruct (chunk_text_inv text mx mn ov) as (H & _); exact H.
Qed.

Lemma chunk_id_pos cs j c :
  map id cs = map Z.of_nat (seq 0 (List.length cs)) -> nth_error cs j = Some c -> id c = Z.of_nat j.
Proof.
  intros Hids Hc.
  assert (H : nth_error (map id cs) j = Some (id c)) by (rewrite nth_error_map, Hc; reflexivity).
  rewrite Hids, nth_error_map in H.
  destruct (nth_error (seq 0 (List.length cs)) j) as [k|] eqn:Ek; [| discriminate].
  apply nth_error_seq_some in Ek; cbn [option_map] in H; injection H as <-; subst k; reflexivity.
Qed.

End AppFacts.

Import App AppFacts.

(** _escape_html: its output never contains "<" or ">", and two strings
    with the same escaped form are equal (the escaping loses nothing). *)
Theorem escape_html_safe (py_str : json -> str) :
  (forall v, ~ In "<"%char (_escape_html py_str v) /\ ~ In ">"%char (_escape_html py_str v)) /\
  (forall a b, _escape_html py_str (JStr a) = _escape_html py_str (JStr b) -> a = b).
Proof.
  split.
  - intros v; destruct v; unfold _escape_html; try (split; intros []);
      rewrite escape_chars; split; intros H; apply in_flat_map in H;
      destruct H as (c & _ & Hc); first [exact (proj1 (esc_no_lt_gt c) Hc) | exact (proj2 (esc_no_lt_gt c) Hc)].
  - intros a b H; unfold _escape_html in H; rewrite !escape_chars in H.
    apply flat_map_esc_inj; exact H.
Qed.

(** badge_html on the states the table builder produces: "Fully Compliant"
    is green, "Partially Compliant" yellow, "Non-Compliant" red and the empty
    state gray, shown with the label "Unknown". *)
Theorem table_state_badge (j : json) (y : str) :
  ReportTable._map_state j = Some y ->
  (y = FULLY /\ badge_colors y = GREEN) \/ (y = PARTIAL /\ badge_colors y = YELLOW) \/
  (y = NONC /\ badge_colors y = RED) \/
  (y = [] /\ badge_colors y = GRAY /\ exists pre, badge_html y = pre ++ s "Unknown</span>").
Proof.
  intros H; apply RTFacts.map_state_out in H.
  destruct H as [-> | [<- | [<- | [<- | []]]]].
  - right; right; right; split; [reflexivity | split; [vm_compute; reflexivity |]].
    exists (firstn (List.length (badge_html []) - 14) (badge_html [])); vm_compute; reflexivity.
  - left; split; [reflexivity | vm_compute; reflexivity].
  - right; left; split; [reflexivity | vm_compute; reflexivity].
  - right; right; left; split; [reflexivity | vm_compute; reflexivity].
Qed.

Lemma table_state_badge_witness :
  ReportTable._map_state (JStr (s "Partial")) = Some PARTIAL /\
  ((PARTIAL = FULLY /\ badge_colors PARTIAL = GREEN) \/
   (PARTIAL = PARTIAL /\ badge_colors PARTIAL = YELLOW) \/
   (PARTIAL = NONC /\ badge_colors PARTIAL = RED) \/
   (PARTIAL = [] /\ badge_colors PARTIAL = GRAY /\
    exists pre, badge_html PARTIAL = pre ++ s "Unknown</span>")).
Proof.
  split; [vm_compute; reflexivity |].
  apply (table_state_badge (JStr (s "Partial"))); vm_compute; reflexivity.
Defined.

(** The index the app builds for an upload: whenever retrieve_clauses
    returns from it, every clause it returns is chunk number j of the
    chunk_text output (for some j), with chunk_id = j = the chunk's "id"
    and the chunk's text. *)
Theorem app_index_retrieval (embed_texts : list str -> list (list Q)) (contract_text : str)
        (cs : list chunk) (st : store) (embed : str -> list Q) (sim : list Q -> list Q -> Q)
        (pad_score : Q) (rank : nat -> list (Z * Q) -> list (Z * Q)) (name desc : str)
        (controls : list str) (top_k : nat) (min_score : Q) (rs : list clause) :
  build_index embed_texts contract_text = Some (cs, st) ->
  retrieve_clauses embed sim pad_score rank st name desc controls top_k min_score = Some rs ->
  Forall (fun cl => exists j c, nth_error cs j = Some c /\ id c = Z.of_nat j /\
                                cl_chunk_id cl = Some (id c) /\ cl_text cl = ctext c) rs.
Proof.
  intros Hb Hr; unfold build_index in Hb.
  destruct (embed_texts _) as [|v embs]; [discriminate |].
  destruct (add _ _ _ _) as [st'|] eqn:Ea; [| discriminate].
  injection Hb as <- <-.
  apply add_fresh in Ea; destruct Ea as [Ht Hm].
  set (cs := chunk_text contract_text 3000 400 1) in *.
  assert (Hids := chunk_text_ids contract_text 3000 400 1); fold cs in Hids.
  unfold retrieve_clauses in Hr; cbv zeta in Hr.
  destruct (search sim pad_score rank st' (embed (query_of name desc controls)) top_k)
    as [hs|] eqn:Hs; [| discriminate].
  injection Hr as <-.
  unfold search in Hs.
  destruct (index_search sim pad_score rank st' (embed (query_of name desc controls)) top_k)
    as [rows|]; [| discriminate].
  apply keep_hits_spec in Hs; destruct Hs as [_ Hf].
  apply Forall_forall; intros cl Hcl; apply filter_In in Hcl; destruct Hcl as [Hcl _].
  apply in_map_iff in Hcl; destruct Hcl as (h & <- & Hh).
  rewrite Forall_forall in Hf; specialize (Hf h Hh).
  destruct h as [[[i sc] t] m]; destruct Hf as [Hti Hmi]; rewrite Ht in Hti; rewrite Hm in Hmi.
  unfold lookup in Hti, Hmi; destruct (i <? 0); [discriminate |].
  rewrite nth_error_map in Hti, Hmi.
  destruct (nth_error cs (Z.to_nat i)) as [c|] eqn:Ec; [| discriminate].
  injection Hti as <-; injection Hmi as <-.
  exists (Z.to_nat i), c; split; [exact Ec |].
  assert (Hid : id c = Z.of_nat (Z.to_nat i)) by (apply (chunk_id_pos cs); assumption).
  split; [exact Hid |].
  unfold meta_of; cbn [to_result cl_chunk_id cl_text m_chunk_id].
  split; reflexivity.
Qed.

Lemma app_index_retrieval_witness :
  exists cs st rs,
    build_index (map (fun _ => [1%Q])) (repeat "a"%char 450) = Some (cs, st) /\
    List.length cs = 1%nat /\
    retrieve_clauses (fun _ => [1%Q]) (fun _ _ => 1%Q) 0%Q sort_rank st (s "Data protection")
                     (s "desc") [s "Encryption"] 3 (1 # 4) = Some rs /\
    List.length rs = 1%nat /\
    Forall (fun cl => exists j c, nth_error cs j = Some c /\ id c = Z.of_nat j /\
                                  cl_chunk_id cl = Some (id c) /\ cl_text cl = ctext c) rs.
Proof.
  destruct (build_index (map (fun _ => [1%Q])) (repeat "a"%char 450)) as [[cs st]|] eqn:Hb;
    [| vm_compute in Hb; discriminate].
  destruct (retrieve_clauses (fun _ => [1%Q]) (fun _ _ => 1%Q) 0%Q sort_rank st (s "Data protection")
              (s "desc") [s "Encryption"] 3 (1 # 4)) as [rs|] eqn:Hr.
  - exists cs, st, rs; split; [reflexivity |].
    split; [apply (f_equal (fun o => match o with Some (c, _) => List.length c | None => O end)) in Hb;
            vm_compute in Hb; symmetry; exact Hb |].
    split; [exact Hr |].
    split; [| exact (app_index_retrieval _ _ _ _ _ _ _ _ _ _ _ _ _ _ Hb Hr)].
    apply (f_equal (fun o => match o with Some (_, st) => st | None => new_store 0 end)) in Hb.
    cbn iota beta in Hb; rewrite <- Hb in Hr; vm_compute in Hr; injection Hr as <-; reflexivity.
  - apply (f_equal (fun o => match o with Some (_, st) => st | None => new_store 0 end)) in Hb.
    cbn iota beta in Hb; rewrite <- Hb in Hr; vm_compute in Hr; discriminate.
Defined.

(** ** The matcher's positions, [re.split] on [\s+], and single-line text *)
Module CleanFacts.
Import Py Re Chunker PdfLoader StrFacts ChunkInv.

(** The loop of a starred pattern, over the matcher [mr] of its body. *)
Definition star_loop (mr : nat -> caps -> (nat -> caps -> option (nat * caps)) -> option (nat * caps))
           (k : nat -> caps -> option (nat * caps)) :=
  fix loop (fuel : nat) (i : nat) (c : caps) {struct fuel} : option (nat * caps) :=
    match fuel with
    | O => k i c
    | S f =>
        match mr i c (fun j c' => if Nat.eqb j i then None else loop f j c') with
        | Some res => Some res
        | None => k i c
        end
    end.

Lemma m_star r1 x i c k :
  m (Star r1) x i c k = star_loop (fun i c k => m r1 x i c k) k (S (List.length x - i)) i c.
Proof. reflexivity. Qed.

Lemma star_loop_mono mr k :
  (forall i c k' res, mr i c k' = Some res -> exists j c', (i <= j)%nat /\ k' j c' = Some res) ->
  forall fuel i c res, star_loop mr k fuel i c = Some res ->
  exists j c', (i <= j)%nat /\ k j c' = Some res.
Proof.
  intros Hmr fuel; induction fuel as [|f IHf]; intros i c res H.
  - exists i, c; split; [lia | exact H].
  - cbn [star_loop] in H.
    match type of H with
    | context [match mr i c ?K with _ => _ end] => destruct (mr i c K) as [p|] eqn:E
    end.
    + injection H as <-.
      destruct (Hmr _ _ _ _ E) as (j1 & c1 & Hj1 & H1); cbn beta in H1.
      destruct (Nat.eqb j1 i); [discriminate |].
      destruct (IHf _ _ _ H1) as (j & c' & Hj & Hk).
      exists j, c'; split; [lia | exact Hk].
    + exists i, c; split; [lia | exact H].
Qed.

(** A match never ends before it starts: whatever the continuation gets is
    at or after the start position. *)
Lemma m_mono r : forall x i c k res, m r x i c k = Some res ->
  exists j c', (i <= j)%nat /\ k j c' = Some res.
Proof.
  induction r as [f | r1 IH1 r2 IH2 | r1 IH1 r2 IH2 | r1 IH1 | n r1 IH1 | | | |];
    intros x i c k res H.
  - cbn [m] in H; destruct (char_at x i) as [a|]; [| discriminate].
    destruct (f a); [| discriminate].
    exists (S i), c; split; [lia | exact H].
  - cbn [m] in H; destruct (IH1 _ _ _ _ _ H) as (j1 & c1 & Hj1 & H1).
    destruct (IH2 _ _ _ _ _ H1) as (j2 & c2 & Hj2 & H2).
    exists j2, c2; split; [lia | exact H2].
  - cbn [m] in H; destruct (m r1 x i c k) eqn:E.
    + injection H as <-; exact (IH1 _ _ _ _ _ E).
    + exact (IH2 _ _ _ _ _ H).
  - rewrite m_star in H; exact (star_loop_mono _ _ (IH1 x) _ _ _ _ H).
  - cbn [m] in H; destruct (IH1 _ _ _ _ _ H) as (j & c' & Hj & Hk).
    exists j, ((n, (i, j)) :: c'); split; [exact Hj | exact Hk].
  - cbn [m] in H; destruct (Nat.eqb i 0); [exists i, c; split; [lia | exact H] |].
    destruct (char_at x (i - 1)) as [a|]; [| discriminate].
    destruct (Ascii.eqb a nl); [exists i, c; split; [lia | exact H] | discriminate].
  - cbn [m] in H; destruct (char_at x i) as [a|]; [| exists i, c; split; [lia | exact H]].
    destruct (Ascii.eqb a nl); [exists i, c; split; [lia | exact H] | discriminate].
  - cbn [m] in H; destruct (xorb _ _); [exists i, c; split; [lia | exact H] | discriminate].
  - exists i, c; split; [lia | exact H].
Qed.

(** A starred pattern always matches (possibly the empty string). *)
Lemma star_some r x i c : m (Star r) x i c (fun j c => Some (j, c)) <> None.
Proof.
  rewrite m_star; cbn [star_loop].
  match goal with
  | |- match ?e with _ => _ end <> None => destruct e
  end; discriminate.
Qed.

Lemma plus_space_at x k :
  match_at (plus space) x k = None -> forall a, nth_error x k = Some a -> is_space a = false.
Proof.
  intros H a Ha; unfold match_at, plus, space in H; cbn [m] in H.
  unfold char_at in H; rewrite Ha in H.
  destruct (is_space a); [exfalso | reflexivity].
  exact (star_some (Cls is_space) x (S k) [] H).
Qed.

Lemma plus_space_end x k e c : match_at (plus space) x k = Some (e, c) -> (k < e)%nat.
Proof.
  intros H; unfold match_at, plus, space in H; cbn [m] in H.
  destruct (char_at x k) as [a|]; [| discriminate].
  destruct (is_space a); [| discriminate].
  change (m (Star (Cls is_space)) x (S k) [] (fun j c => Some (j, c)) = Some (e, c)) in H.
  destruct (m_mono _ _ _ _ _ _ H) as (j & c' & Hj & Hk).
  injection Hk as -> _; lia.
Qed.

Lemma search_from_spec r x i fuel mt :
  search_from r x i fuel = Some mt ->
  (i <= mstart mt)%nat /\ match_at r x (mstart mt) = Some (mend mt, mcaps mt) /\
  (forall k, (i <= k < mstart mt)%nat -> match_at r x k = None).
Proof.
  revert i; induction fuel as [|f IH]; intros i H; simpl in H; [discriminate |].
  destruct (match_at r x i) as [[j c]|] eqn:E.
  - injection H as <-; simpl; split; [lia | split; [exact E | intros; lia]].
  - destruct (IH _ H) as (H1 & H2 & H3); split; [lia | split; [exact H2 |]].
    intros k Hk; destruct (Nat.eq_dec k i) as [-> | Hne]; [exact E | apply H3; lia].
Qed.

Lemma search_from_none r x i fuel :
  search_from r x i fuel = None -> forall k, (i <= k < i + fuel)%nat -> match_at r x k = None.
Proof.
  revert i; induction fuel as [|f IH]; intros i H k Hk; [lia |].
  simpl in H; destruct (match_at r x i) as [[j c]|] eqn:E; [discriminate |].
  destruct (Nat.eq_dec k i) as [-> | Hne]; [exact E | apply (IH (S i)); [exact H | lia]].
Qed.

Lemma search_from_nomatch r x i fuel :
  (forall k, (i <= k)%nat -> match_at r x k = None) -> search_from r x i fuel = None.
Proof.
  revert i; induction fuel as [|f IH]; intros i H; simpl; [reflexivity |].
  rewrite (H i (le_n i)); apply IH; intros k Hk; apply H; lia.
Qed.

Lemma finditer_from_step r x i f :
  finditer_from r x i (S f) =
  match search_from r x i (S (List.length x - i)) with
  | Some mt => mt :: finditer_from r x (if Nat.ltb (mstart mt) (mend mt) then mend mt else S (mend mt)) f
  | None => []
  end.
Proof. reflexivity. Qed.

Lemma finditer_from_nomatch r x i fuel :
  (forall k, (i <= k)%nat -> match_at r x k = None) -> finditer_from r x i fuel = [].
Proof.
  destruct fuel; cbn [finditer_from]; intros H; [reflexivity |].
  rewrite search_from_nomatch by exact H; reflexivity.
Qed.

Lemma slice_nth x a b c :
  In c (slice x a b) -> exists k, (a <= k < b)%nat /\ nth_error x k = Some c.
Proof.
  unfold slice; intros H; apply In_nth_error in H; destruct H as [n Hn].
  rewrite nth_error_firstn, nth_error_skipn in Hn.
  destruct (Nat.ltb n (b - a)) eqn:E; [| discriminate].
  apply Nat.ltb_lt in E; exists (a + n)%nat; split; [lia | exact Hn].
Qed.

(** The pieces of [re.split(r"\s+", x)] hold no whitespace. *)
Lemma split_space_pieces x p a :
  In p (split (plus space) x) -> In a p -> is_space a = false.
Proof.
  assert (G : forall fuel i, (List.length x < i + fuel)%nat ->
              In p (split_pieces x i (finditer_from (plus space) x i fuel)) ->
              In a p -> is_space a = false).
  { induction fuel as [|f IH]; intros i Hf Hp Ha.
    - simpl in Hp; destruct Hp as [<- | []].
      destruct (slice_nth _ _ _ _ Ha) as (k & Hk & Hn).
      assert (k < List.length x)%nat by (apply nth_error_Some; congruence); lia.
    - cbn [finditer_from] in Hp.
      destruct (search_from (plus space) x i (S (List.length x - i))) as [mt|] eqn:Hs.
      + destruct (search_from_spec _ _ _ _ _ Hs) as (H1 & H2 & H3).
        assert (Hlt := plus_space_end _ _ _ _ H2).
        rewrite (proj2 (Nat.ltb_lt _ _) Hlt) in Hp; cbn [split_pieces] in Hp.
        destruct Hp as [<- | Hp].
        * destruct (slice_nth _ _ _ _ Ha) as (k & Hk & Hn).
          exact (plus_space_at x k (H3 k Hk) a Hn).
        * apply (IH (mend mt)); [lia | exact Hp | exact Ha].
      + cbn [split_pieces] in Hp; destruct Hp as [<- | []].
        destruct (slice_nth _ _ _ _ Ha) as (k & Hk & Hn).
        apply (plus_space_at x k); [apply (search_from_none _ _ _ _ Hs); lia | exact Hn]. }
  unfold split, finditer; apply (G (S (List.length x)) 0%nat); lia.
Qed.

Lemma clean_text_chars text a : In a (clean_text text) -> is_space a = true -> a = " "%char.
Proof.
  unfold clean_text; destruct text as [|c r]; [intros [] |]; cbv zeta; intros H Hs.
  apply strip_incl in H; unfold sub in H; apply join_incl in H.
  destruct H as [[] | (p & Hp & Ha)].
  apply (split_incl _ _ _ _ Hp) in Ha; apply join_incl in Ha.
  destruct Ha as [[<- | []] | (q & Hq & Ha)]; [reflexivity |].
  unfold SPACES_RE in Hq; rewrite (split_space_pieces _ _ _ Hq Ha) in Hs; discriminate.
Qed.

Lemma clean_text_stripped text : strip (clean_text text) = clean_text text.
Proof. destruct text; [reflexivity |]; unfold clean_text; cbv zeta; apply strip_idem. Qed.

Lemma replace_cr_id t : ~ In cr t -> replace_cr t = t.
Proof.
  unfold replace_cr; induction t as [|a r IH]; simpl; intros H; [reflexivity |].
  rewrite IH by tauto.
  destruct (Ascii.eqb a cr) eqn:E; [apply Ascii.eqb_eq in E; subst; tauto | reflexivity].
Qed.

Lemma heading_nomatch t k : ~ In nl t -> (0 < k)%nat -> match_at HEADING_RE t k = None.
Proof.
  intros Hn Hk; destruct k as [|k']; [lia |].
  unfold match_at, HEADING_RE; cbn [m Nat.eqb].
  destruct (char_at t (S k' - 1)) as [a|] eqn:E; [| reflexivity].
  destruct (Ascii.eqb a nl) eqn:Ea; [| reflexivity].
  apply Ascii.eqb_eq in Ea; subst a; apply nth_error_In in E; contradiction.
Qed.

Lemma para_nomatch t k : ~ In nl t -> match_at PARA_RE t k = None.
Proof.
  intros Hn; unfold match_at, PARA_RE, chr; cbn [m].
  destruct (char_at t k) as [a|] eqn:E; [| reflexivity].
  destruct (Ascii.eqb nl a) eqn:Ea; [| reflexivity].
  apply Ascii.eqb_eq in Ea; subst a; apply nth_error_In in E; contradiction.
Qed.

Lemma para_split_single t : ~ In nl t -> ~ In cr t -> t <> [] -> strip t = t -> _para_split t = [t].
Proof.
  intros Hn Hc Hne Hs; unfold _para_split; rewrite replace_cr_id by exact Hc.
  unfold split, finditer.
  rewrite finditer_from_nomatch by (intros k _; apply para_nomatch; exact Hn).
  cbn [split_pieces]; unfold slice; rewrite Nat.sub_0_r, firstn_all; cbn [skipn filter].
  rewrite Hs; destruct t as [|a r]; [congruence |]; cbn [map]; rewrite Hs; reflexivity.
Qed.

Lemma single_line_blocks t :
  ~ In nl t -> ~ In cr t -> t <> [] -> strip t = t ->
  exists h, split_into_section_blocks t =
            [{| heading := h; btext := t; bstart := 0; bend := List.length t |}].
Proof.
  intros Hn Hc Hne Hs; unfold split_into_section_blocks; cbv zeta.
  rewrite replace_cr_id by exact Hc; rewrite Hs.
  destruct t as [|a r]; [congruence |].
  destruct (finditer HEADING_RE (a :: r)) as [|mt ms] eqn:Ef; [exists None; reflexivity |].
  unfold finditer in Ef; rewrite finditer_from_step in Ef.
  destruct (search_from HEADING_RE (a :: r) 0 _) as [mt0|] eqn:Hs'; [| discriminate].
  set (rest := finditer_from HEADING_RE (a :: r) _ _) in Ef.
  assert (Hrest : rest = []).
  { apply finditer_from_nomatch; intros k Hk; apply heading_nomatch; [exact Hn |].
    destruct (Nat.ltb (mstart mt0) (mend mt0)) eqn:El; [apply Nat.ltb_lt in El |]; lia. }
  rewrite Hrest in Ef; injection Ef as <- <-.
  destruct (search_from_spec _ _ _ _ _ Hs') as (_ & H2 & _).
  assert (Hm0 : mstart mt0 = 0%nat).
  { destruct (mstart mt0) as [|k] eqn:E; [reflexivity |].
    rewrite (heading_nomatch _ _ Hn) in H2; [discriminate | lia]. }
  exists (Some (strip (group (a :: r) mt0 1))); cbn [blocks_of].
  rewrite Hm0; unfold slice; rewrite Nat.sub_0_r, firstn_all; cbn [skipn].
  rewrite Hs; reflexivity.
Qed.

(** Text without line breaks that [strip] leaves alone goes into one block
    and one paragraph: [chunk_text] gives it back as one chunk, or none when
    it is shorter than [min_chars]. *)
Lemma single_line_chunks t mx mn ov :
  ~ In nl t -> ~ In cr t -> strip t = t ->
  map ctext (chunk_text t mx mn ov) =
  if (0 <? zlen t)%Z && (zlen t >=? mn)%Z then [t] else [].
Proof.
  intros Hn Hc Hs; destruct t as [|a r]; [reflexivity |].
  assert (Hne : a :: r <> []) by discriminate.
  destruct (single_line_blocks _ Hn Hc Hne Hs) as [h Hb].
  unfold chunk_text; rewrite replace_cr_id by exact Hc; rewrite Hb; cbn [fold_left].
  unfold chunk_block; cbn [btext heading bstart chunks chunk_id].
  rewrite para_split_single by assumption; cbn [fold_left].
  unfold para_step; cbn [buf chunks chunk_id].
  unfold flush; cbn [buf chunks chunk_id buf_start_char join].
  rewrite Hs.
  replace (0 <? zlen (a :: r))%Z with true by (symmetry; apply Z.ltb_lt; unfold zlen; simpl; lia).
  destruct (zlen (a :: r) >=? mn)%Z; reflexivity.
Qed.

End CleanFacts.

Import CleanFacts.

(** clean_text (pdf_loader.py): its output is stripped, and the only
    whitespace character left in it is the space " " -- every run of
    whitespace, newlines included, becomes one space or is removed. *)
Theorem clean_text_normalised (text : str) :
  let out := PdfLoader.clean_text text in
  strip out = out /\ (forall a, In a out -> is_space a = true -> a = " "%char).
Proof.
  intros out; split; [apply clean_text_stripped | intros a; apply clean_text_chars].
Qed.

(** For ASCII extracted text (the characters of [str]), the text
    load_contract_pdf_bytes returns has no line breaks, so chunk_text finds
    no section heading after its start and no paragraph break in it: the
    chunks are exactly one chunk holding the whole text when it has at
    least min_chars characters, and none otherwise. *)
Theorem pdf_text_one_chunk (pdfplumber pypdf2 ocr : option str) (use_ocr : bool)
        (max_chars min_chars overlap_paragraphs : Z) :
  let t := PdfLoader.load_contract_pdf_bytes pdfplumber pypdf2 ocr use_ocr in
  map ctext (chunk_text t max_chars min_chars overlap_paragraphs) =
  if (0 <? zlen t)%Z && (zlen t >=? min_chars)%Z then [t] else [].
Proof.
  intros t; unfold t, PdfLoader.load_contract_pdf_bytes; cbv zeta.
  apply single_line_chunks.
  - intros H; apply clean_text_chars in H; [| reflexivity].
    unfold nl in H; vm_compute in H; discriminate.
  - intros H; apply clean_text_chars in H; [| reflexivity].
    unfold cr in H; vm_compute in H; discriminate.
  - apply clean_text_stripped.
Qed.
